(** * PyDPainter colour wheel: a shallow embedding of [libs/colorwheel.py]

    The development follows the source file top to bottom:

    - [Py], [colorsys]: the numeric primitives of Python's [math] and
      [colorsys] modules that the wheel uses.  Python floats are modelled
      by the real numbers of the Standard Library: rounding is not
      modelled, every float operation is taken to be exact.
    - [F64]: the same colour arithmetic in IEEE doubles, to measure what
      the exact model leaves out (a channel can come out one lower).
    - [pygame]: pixel surfaces with [set_at], [fill] and [blit].
    - [Wheel]: [_generate_wheel_surface], the module dictionary
      [_WHEEL_CACHE] and [_get_wheel_surface].
    - [Gadget]: the class [ColorWheelGadget] ([draw], [process_event]).
    - [Req]: the modal requestor [colorwheel_req].
*)

From Stdlib Require Import Floats.
From Stdlib Require Import ZArith Reals Lra Lia List.
From stdpp Require Import gmap.
Import ListNotations.

Local Open Scope Z_scope.

(* ===================================================================== *)
(** ** Python numerics *)
(* ===================================================================== *)

Module Py.

(** [int(x)] on a float: truncation towards zero. *)
Definition int (x : R) : Z :=
  if Rle_dec 0 x then Zfloor x else Zceil x.

(** [x % m] on floats: the result takes the sign of the divisor,
    [x - m * floor (x / m)]. *)
Definition fmod (x m : R) : R :=
  (x - m * IZR (Zfloor (x / m)))%R.

(** [math.hypot(dx, dy)]. *)
Definition hypot (dx dy : R) : R :=
  sqrt (dx * dx + dy * dy).

(** [math.atan2(y, x)], the angle of the point [(x, y)] in (-pi, pi]. *)
Definition atan2 (y x : R) : R :=
  if Rlt_dec 0 x then atan (y / x)
  else if Rlt_dec x 0 then
         if Rle_dec 0 y then (atan (y / x) + PI)%R
         else (atan (y / x) - PI)%R
  else if Rlt_dec 0 y then (PI / 2)%R
  else if Rlt_dec y 0 then (- (PI / 2))%R
  else 0%R.

(** [x / y] with a float result; [None] is [ZeroDivisionError]. *)
Definition div (x y : R) : option R :=
  if Req_dec_T y 0 then None else Some (x / y)%R.

End Py.

(* ===================================================================== *)
(** ** colorsys *)
(* ===================================================================== *)

Module colorsys.

(** [colorsys.hsv_to_rgb(h, s, v)] of the Python standard library.  The
    sector index is [int(h*6.0) % 6]; it only takes the values 0..5, so
    the last test of the library ([i == 5]) is the final branch here. *)
Definition hsv_to_rgb (h s v : R) : R * R * R :=
  if Req_dec_T s 0 then (v, v, v)
  else
    let i := Py.int (h * 6) in
    let f := (h * 6 - IZR i)%R in
    let p := (v * (1 - s))%R in
    let q := (v * (1 - s * f))%R in
    let t := (v * (1 - s * (1 - f)))%R in
    let i := i mod 6 in
    if i =? 0 then (v, t, p)
    else if i =? 1 then (q, v, p)
    else if i =? 2 then (p, v, t)
    else if i =? 3 then (p, q, v)
    else if i =? 4 then (t, p, v)
    else (v, p, q).

End colorsys.

(* ===================================================================== *)
(** ** Colours and the pixel formula shared by the renderer and the gadget *)
(* ===================================================================== *)

(** An RGB colour as the code builds it: a tuple of three Python ints. *)
Definition Color : Type := Z * Z * Z.

Definition BLACK : Color := (0, 0, 0).

(** [hue = (math.atan2(-dy, dx) % (2 * math.pi)) / (2 * math.pi)]
    (lines 55 and 123). *)
Definition hue_of (dx dy : Z) : R :=
  (Py.fmod (Py.atan2 (- IZR dy) (IZR dx)) (2 * PI) / (2 * PI))%R.

(** [(int(r * 255), int(g * 255), int(b * 255))] (lines 58 and 126). *)
Definition to_rgb255 (c : R * R * R) : Color :=
  let '(r, g, b) := c in
  (Py.int (r * 255), Py.int (g * 255), Py.int (b * 255)).

(** Lines 55-58 of [_generate_wheel_surface] and lines 123-126 of
    [process_event] are the same four statements; [None] is the
    [ZeroDivisionError] of [dist / radius] when [radius] is 0.  The
    arithmetic is exact: the doubles of the code give the same channels
    for the radius the program uses, 88, but for other radii a channel
    whose exact value is a whole number can come out one lower (see
    [F64.hsv_pixel]). *)
Definition hsv_pixel (radius dx dy : Z) (dist : R) : option Color :=
  let hue := hue_of dx dy in
  match Py.div dist (IZR radius) with
  | None => None
  | Some d =>
      let sat := Rmin 1 d in
      Some (to_rgb255 (colorsys.hsv_to_rgb hue sat 1))
  end.

(* ===================================================================== *)
(** ** The colour arithmetic in IEEE doubles *)
(* ===================================================================== *)

Module F64.

(** [math.pi]. *)
Definition pi : float := 0x1.921fb54442d18p+1%float.

(** [int(x)] on a double: truncation towards zero; [None] for an infinity
    or a nan, where Python raises. *)
Definition int (x : float) : option Z :=
  match Prim2SF x with
  | S754_zero _ => Some 0
  | S754_finite s m e =>
      let a := if 0 <=? e then Z.pos m * 2 ^ e else Z.pos m / 2 ^ (- e) in
      Some (if s then - a else a)
  | _ => None
  end.

(** The double of a Python int, rounded to nearest even; [None] is the
    [OverflowError] of an int too large for a double. *)
Definition of_int (z : Z) : option float :=
  let x := SF2Prim (binary_normalize prec emax z 0 false) in
  if is_infinity x then None else Some x.

(** [x % m] on doubles for [|x| < m], the case the wheel reaches ([x] is
    an angle that [math.atan2] returned, [m] is [2 * math.pi]): C's [fmod]
    then returns [x] itself, and Python adds [m] to a negative remainder
    and turns a zero remainder into [+0.0].  [None] outside that case. *)
Definition mod_small (x m : float) : option float :=
  if (abs x <? m)%float then
    Some (if (x =? 0)%float then 0%float
          else if (x <? 0)%float then (x + m)%float
          else x)
  else None.

(** [min(1.0, d)]: Python returns the first argument unless the second
    is smaller. *)
Definition min1 (d : float) : float :=
  if (d <? 1)%float then d else 1%float.

(** [colorsys.hsv_to_rgb(h, s, v)] in doubles. *)
Definition hsv_to_rgb (h s v : float) : option (float * float * float) :=
  if (s =? 0)%float then Some (v, v, v)
  else
    i ← int (h * 6)%float;
    fi ← of_int i;
    let f := (h * 6 - fi)%float in
    let p := (v * (1 - s))%float in
    let q := (v * (1 - s * f))%float in
    let t := (v * (1 - s * (1 - f)))%float in
    let i := i mod 6 in
    Some (if i =? 0 then (v, t, p)
          else if i =? 1 then (q, v, p)
          else if i =? 2 then (p, v, t)
          else if i =? 3 then (p, q, v)
          else if i =? 4 then (t, p, v)
          else (v, p, q)).

(** Lines 55-58 (and 123-126) in doubles, from the two values the C
    library returns: [angle] is [math.atan2(-dy, dx)] and [dist] is
    [math.hypot(dx, dy)]. *)
Definition hsv_pixel (radius : Z) (angle dist : float) : option Color :=
  a ← mod_small angle (2 * pi)%float;
  let hue := (a / (2 * pi))%float in
  if radius =? 0 then None
  else
    fr ← of_int radius;
    let sat := min1 (dist / fr)%float in
    '(r, g, b) ← hsv_to_rgb hue sat 1%float;
    r' ← int (r * 255)%float;
    g' ← int (g * 255)%float;
    b' ← int (b * 255)%float;
    Some (r', g', b').

End F64.

(** The closed unit interval of the reals. *)
Definition unit_interval (x : R) : Prop := (0 <= x <= 1)%R.

(** A colour whose three channels are 8-bit intensities. *)
Definition channel_ok (z : Z) : Prop := 0 <= z <= 255.

Definition color_ok (c : Color) : Prop :=
  let '(r, g, b) := c in channel_ok r /\ channel_ok g /\ channel_ok b.

(* ===================================================================== *)
(** ** pygame surfaces *)
(* ===================================================================== *)

Module pygame.

(** A rectangle as the code passes it around: the tuple [(x, y, w, h)]. *)
Definition Rect : Type := Z * Z * Z * Z.

(** A pixel buffer without per-pixel alpha and without a colour key,
    as [pygame.Surface((w, h)).convert()] returns it.  Pixels that were
    never written are black. *)
Record Surface : Type := mkSurface {
  surf_w : Z;
  surf_h : Z;
  surf_px : gmap (Z * Z) Color
}.

Definition in_surface (s : Surface) (p : Z * Z) : bool :=
  (0 <=? p.1) && (p.1 <? surf_w s) && (0 <=? p.2) && (p.2 <? surf_h s).

(** [pygame.Surface((w, h))]; a negative size raises [pygame.error]. *)
Definition new_Surface (w h : Z) : option Surface :=
  if (w <? 0) || (h <? 0) then None
  else Some (mkSurface w h ∅).

Definition pixel (s : Surface) (p : Z * Z) : Color :=
  default BLACK (surf_px s !! p).

(** [surf.get_at(p)]; [None] is the [IndexError] outside the surface. *)
Definition get_at (s : Surface) (p : Z * Z) : option Color :=
  if in_surface s p then Some (pixel s p) else None.

(** [surf.set_at(p, c)]; outside the surface it does nothing. *)
Definition set_at (s : Surface) (p : Z * Z) (c : Color) : Surface :=
  if in_surface s p
  then mkSurface (surf_w s) (surf_h s) (<[p := c]> (surf_px s))
  else s.

(** [surf.get_rect(center=(cx, cy))]. *)
Definition get_rect_center (s : Surface) (c : Z * Z) : Rect :=
  (c.1 - surf_w s / 2, c.2 - surf_h s / 2, surf_w s, surf_h s).

(** The pixel positions of a rectangle, row by row. *)
Definition rect_points (r : Rect) : list (Z * Z) :=
  let '(x, y, w, h) := r in
  y' ← seqZ y h; x' ← seqZ x w; [(x', y')].

(** [for p in ps: s.set_at(g(p), f(p))]. *)
Definition paint (g : Z * Z -> Z * Z) (f : Z * Z -> Color)
           (ps : list (Z * Z)) (s : Surface) : Surface :=
  foldl (fun s p => set_at s (g p) (f p)) s ps.

(** What the toolkit draws on: a target with [fill] and [blit]. *)
Class Canvas (S : Type) : Type := {
  fill : Color -> Rect -> S -> S;
  blit : Surface -> Rect -> S -> S
}.

(** [screen.fill(color, rect)] and [screen.blit(src, dest)] on a pixel
    buffer.  The source has neither alpha nor colour key, so [blit]
    copies every one of its pixels.  [surface_fill] is the fill of a
    rectangle whose origin is not negative, clipped to the surface; for
    a negative origin pygame moves the origin to 0 and keeps the size,
    which is not modelled: the properties below that depend on it take
    the origin to be non-negative. *)
Definition surface_fill (c : Color) (r : Rect) (s : Surface) : Surface :=
  paint (fun p => p) (fun _ => c) (rect_points r) s.

Definition surface_blit (src : Surface) (dest : Rect) (s : Surface) : Surface :=
  let '(x0, y0, _, _) := dest in
  paint (fun p => (x0 + p.1, y0 + p.2)) (pixel src)
        (rect_points (0, 0, surf_w src, surf_h src)) s.

#[export] Instance surface_canvas : Canvas Surface :=
  {| fill := surface_fill; blit := surface_blit |}.

End pygame.

Import pygame.

(* ===================================================================== *)
(** ** The wheel renderer and its cache *)
(* ===================================================================== *)

(** [for x in xs: body], where an iteration may raise ([None]). *)
Fixpoint for_each {S : Type} (xs : list Z) (body : Z -> S -> option S)
         (s : S) : option S :=
  match xs with
  | [] => Some s
  | x :: xs' =>
      match body x s with
      | None => None
      | Some s' => for_each xs' body s'
      end
  end.

(** [range(n)]. *)
Definition range (n : Z) : list Z := seqZ 0 n.

Module Wheel.

(** [_generate_wheel_surface(radius)], lines 39-59. *)
Definition _generate_wheel_surface (radius : Z) : option Surface :=
  let diameter := radius * 2 in
  surf ← new_Surface diameter diameter;
  let centre := (radius, radius) in
  for_each (range diameter) (fun y surf =>
    for_each (range diameter) (fun x surf =>
      let dx := x - centre.1 in
      let dy := y - centre.2 in
      let dist := Py.hypot (IZR dx) (IZR dy) in
      if Rgt_dec dist (IZR radius) then
        (* Outside wheel *)
        Some (set_at surf (x, y) (0, 0, 0))
      else
        c ← hsv_pixel radius dx dy dist;
        Some (set_at surf (x, y) c)) surf) surf.

(** The module state: the dictionary [_WHEEL_CACHE], and a counter of
    the calls of [_generate_wheel_surface] made so far (the counter is
    not in the source, it records the rendering work).  A call of
    [_get_wheel_surface] that returns counts its rendering itself; one
    that raises has no state to return, and [after_call] counts it. *)
Record Globals : Type := mkGlobals {
  _WHEEL_CACHE : gmap Z Surface;
  generate_calls : nat
}.

(** [_get_wheel_surface(radius)], lines 65-68. *)
Definition _get_wheel_surface (radius : Z) (g : Globals)
  : option (Surface * Globals) :=
  match _WHEEL_CACHE g !! radius with
  | Some surf => Some (surf, g)
  | None =>
      surf ← _generate_wheel_surface radius;
      Some (surf, mkGlobals (<[radius := surf]> (_WHEEL_CACHE g))
                            (S (generate_calls g)))
  end.

(** The module state after a call, whether it returned or raised.  The
    call raises only when the radius is not cached and the renderer,
    entered once, raises: the dictionary is as before and the renderer
    has been called once more. *)
Definition after_call (g : Globals) (radius : Z) : Globals :=
  match _get_wheel_surface radius g with
  | Some (_, g') => g'
  | None => mkGlobals (_WHEEL_CACHE g) (S (generate_calls g))
  end.

Definition after_calls (g : Globals) (radii : list Z) : Globals :=
  foldl after_call g radii.

End Wheel.

Import Wheel.

(** *** The renderer as the specification words it *)

(** A pixel of the wheel buffer: a colour, or the out-of-wheel mark. *)
Inductive WheelPixel : Type :=
| OutOfWheel
| InWheel (c : Color).

(** Section 4.1: displacement from the centre, [dist = sqrt(dx²+dy²)],
    out-of-wheel when [dist > radius], otherwise the HSV colour of
    [(angle / 2π, min(1, dist/radius), 1.0)] with
    [angle = atan2(-dy, dx) mod 2π]. *)
Definition spec_render_pixel (radius x y : Z) : WheelPixel :=
  let dx := IZR (x - radius) in
  let dy := IZR (y - radius) in
  let dist := sqrt (dx * dx + dy * dy) in
  if Rgt_dec dist (IZR radius) then OutOfWheel
  else
    let angle := Py.fmod (Py.atan2 (- dy) dx) (2 * PI) in
    let radial_fraction := Rmin 1 (dist / IZR radius) in
    InWheel (to_rgb255
               (colorsys.hsv_to_rgb (angle / (2 * PI)) radial_fraction 1)).

(** How the buffer stores a pixel: the out-of-wheel mark is black. *)
Definition stored (p : WheelPixel) : Color :=
  match p with
  | OutOfWheel => BLACK
  | InWheel c => c
  end.


(* ===================================================================== *)
(** ** The toolkit ([libs/gadget.py]) as far as the wheel uses it *)
(* ===================================================================== *)

Module Toolkit.

(** A pygame input event: the wheel looks at the event type and, for a
    button press, at the button number. *)
Inductive Event : Type :=
| MOUSEBUTTONDOWN (button : Z)
| MOUSEBUTTONUP (button : Z)
| OTHER_EVENT.

(** The gadgets of the requestor; [==] on gadgets is object identity. *)
Inductive GadgetId : Type := wheel_gadget | ok_g | cancel_g.

#[export] Instance GadgetId_eq_dec : EqDecision GadgetId.
Proof. solve_decision. Defined.

(** [GadgetEvent.TYPE_*]. *)
Inductive GadgetEventType : Type :=
| TYPE_GADGETDOWN
| TYPE_GADGETUP
| TYPE_MOUSEMOVE
| TYPE_KEY.

#[export] Instance GadgetEventType_eq_dec : EqDecision GadgetEventType.
Proof. solve_decision. Defined.

(** [GadgetEvent(type, event, gadget)]. *)
Record GadgetEvent : Type := mkGadgetEvent {
  ge_type : GadgetEventType;
  ge_event : Event;
  ge_gadget : GadgetId
}.

(** The methods of the base classes that the wheel calls and whose code
    is in [libs/gadget.py]: [Gadget.pointin(coords, rect)] and
    [Requestor.get_screen_rect()] (of a requestor created with [rect]). *)
Class Toolkit : Type := {
  pointin : Z * Z -> Rect -> bool;
  get_screen_rect : Rect -> Rect
}.

(** Modelled from the spec: [Gadget.pointin] of [libs/gadget.py], which is
    not among the sources, as "falls within the placement rectangle's
    bounds".  The bounds include the right and bottom edges: the rim click
    of the specification at [dx = radius] is at [x + w] and is accepted.
    [get_screen_rect] is taken as the requestor's own rectangle. *)
Definition rect_pointin (p : Z * Z) (r : Rect) : bool :=
  let '(gx, gy, gw, gh) := r in
  (gx <=? p.1) && (gy <=? p.2) && (p.1 <=? gx + gw) && (p.2 <=? gy + gh).

Definition rect_toolkit : Toolkit :=
  {| pointin := rect_pointin; get_screen_rect := fun r => r |}.

End Toolkit.

Import Toolkit.

(* ===================================================================== *)
(** ** ColorWheelGadget *)
(* ===================================================================== *)

Module Gadget.

(** The attributes of a [ColorWheelGadget] that its methods read or
    write.  [value] is [None] or an RGB tuple. *)
Record ColorWheelGadget : Type := mkGadget {
  rect : Rect;
  radius : Z;
  _wheel_surf : Surface;
  need_redraw : bool;
  visible : bool;
  offsetx : Z;
  offsety : Z;
  screenrect : Rect;
  value : option Color
}.

Definition set_value (self : ColorWheelGadget) (v : option Color)
  : ColorWheelGadget :=
  mkGadget (rect self) (radius self) (_wheel_surf self) (need_redraw self)
           (visible self) (offsetx self) (offsety self) (screenrect self) v.

Definition set_need_redraw (self : ColorWheelGadget) (b : bool)
  : ColorWheelGadget :=
  mkGadget (rect self) (radius self) (_wheel_surf self) b
           (visible self) (offsetx self) (offsety self) (screenrect self)
           (value self).

(** Lines 84-89 of [draw]: the gadget becomes visible and records where
    it is on the screen. *)
Definition place (self : ColorWheelGadget) (offset : Z * Z)
  : ColorWheelGadget :=
  let '(x, y, w, h) := rect self in
  let '(xo, yo) := offset in
  mkGadget (rect self) (radius self) (_wheel_surf self) (need_redraw self)
           true xo yo (x + xo, y + yo, w, h) (value self).

(** Modelled from the spec: [Gadget.__init__(type, label, rect, id)] of
    [libs/gadget.py], which is not among the sources: the gadget has no
    value ("None until the user clicks"), is not visible, has no offset
    and [screenrect = rect].  The attributes that the subclass adds are
    given by its own [__init__]. *)
Definition Gadget__init__ (rect : Rect) (radius : Z) (_wheel_surf : Surface)
           (need_redraw : bool) : ColorWheelGadget :=
  mkGadget rect radius _wheel_surf need_redraw false 0 0 rect None.

(** [ColorWheelGadget.__init__(rect, radius)], lines 76-80; [None] when
    the surface cannot be made. *)
Definition __init__ (rect : Rect) (radius : Z) (g : Globals)
  : option (ColorWheelGadget * Globals) :=
  '(surf, g') ← _get_wheel_surface radius g;
  Some (Gadget__init__ rect radius surf true, g').

(** [ColorWheelGadget.draw(screen, font, offset, fgcolor, bgcolor, hcolor)],
    lines 82-98, on any drawing target. *)
Definition draw {S : Type} `{Canvas S} (self : ColorWheelGadget) (screen : S)
           (offset : Z * Z) (bgcolor : Color) : ColorWheelGadget * S :=
  let self := place self offset in
  let '(x, y, w, h) := rect self in
  let '(xo, yo) := offset in
  if negb (need_redraw self) then (self, screen)
  else
    let self := set_need_redraw self false in
    (* Fill background and blit wheel centred *)
    let screen := fill bgcolor (screenrect self) screen in
    let wheel_rect :=
      get_rect_center (_wheel_surf self) (x + xo + w / 2, y + yo + h / 2) in
    (self, blit (_wheel_surf self) wheel_rect screen).

(** [ColorWheelGadget.process_event(screen, event, mouse_pixel_mapper)],
    lines 104-129.  [mouse] is what [mouse_pixel_mapper()] returns; the
    result is the list [ge] and the gadget afterwards, [None] when the
    method raises. *)
Definition process_event `{Toolkit} (self : ColorWheelGadget) (event : Event)
           (mouse : Z * Z) : option (list GadgetEvent * ColorWheelGadget) :=
  let ge := [] in
  match event with
  | OTHER_EVENT => Some (ge, self)
  | _ =>
      let '(mx, my) := mouse in
      if negb (pointin (mx, my) (screenrect self)) then Some (ge, self)
      else
        match event with
        | MOUSEBUTTONDOWN 1 =>
            (* Translate mouse to wheel coordinates *)
            let '(x, y, w, h) := screenrect self in
            let cx := x + w / 2 in
            let cy := y + h / 2 in
            let dx := mx - cx in
            let dy := my - cy in
            let dist := Py.hypot (IZR dx) (IZR dy) in
            if Rgt_dec dist (IZR (radius self)) then Some (ge, self)
            else
              c ← hsv_pixel (radius self) dx dy dist;
              Some (ge ++ [mkGadgetEvent TYPE_GADGETUP event wheel_gadget],
                    set_value self (Some c))
        | _ => Some (ge, self)
        end
  end.

End Gadget.

(* ===================================================================== *)
(** ** colorwheel_req: the modal requestor *)
(* ===================================================================== *)

Module Req.

(** What the host does on behalf of the session, in call order. *)
Inductive HostCall : Type :=
| Recompose (pixel_req_rect : option Rect)  (* [config.recompose()], with the
                                               region it finds reserved *)
| SetClip                                   (* [screen.set_clip(None)] *)
| DrawFrame                                 (* the requestor's own frame and
                                               its two buttons *)
| Fill (c : Color) (r : Rect)
| Blit (r : Rect)
| DisplayUpdate.                            (* [pygame.display.update()] *)

(** The screen of the session is recorded as the list of drawing calls. *)
#[export] Instance trace_canvas : Canvas (list HostCall) :=
  {| fill := fun c r t => t ++ [Fill c r];
     blit := fun _ r t => t ++ [Blit r] |}.

(** The host side: [config.pixel_req_rect] as
    [getattr(config, "pixel_req_rect", None)] reads it, and the calls made
    so far. *)
Record Host : Type := mkHost {
  pixel_req_rect : option Rect;
  calls : list HostCall
}.

(** What the session reads from its arguments: the size of [screen], the
    font height [req.fonty] and the panel colour of the requestor. *)
Record Env : Type := mkEnv {
  screen_width : Z;
  screen_height : Z;
  fonty : Z;
  bgcolor : Color
}.

(** One turn of the loop as the outside world determines it: the event
    [config.xevent.wait()] returns, the position [mouse_pixel_mapper()]
    returns, the notifications of the OK and Cancel gadgets for that event,
    and the offset at which the (draggable) requestor draws its gadgets
    afterwards. *)
Record Input : Type := mkInput {
  in_event : Event;
  in_mouse : Z * Z;
  in_controls : list GadgetEvent;
  in_offset : Z * Z
}.

(** Modelled from the spec: [Requestor.process_event] of [libs/gadget.py],
    which is not among the sources: "route it to all child controls,
    collecting any notifications", the children in the order they were
    added (wheel, OK, Cancel). *)
Definition Requestor_process_event `{Toolkit} (wheel : Gadget.ColorWheelGadget)
           (i : Input) : option (list GadgetEvent * Gadget.ColorWheelGadget) :=
  '(ge, wheel') ← Gadget.process_event wheel (in_event i) (in_mouse i);
  Some (ge ++ in_controls i, wheel').

(** Modelled from the spec: [Requestor.draw] of [libs/gadget.py]: the
    requestor draws its frame and then each gadget at the requestor's
    offset. *)
Definition Requestor_draw (env : Env) (wheel : Gadget.ColorWheelGadget)
           (offset : Z * Z) (screen : list HostCall)
  : Gadget.ColorWheelGadget * list HostCall :=
  Gadget.draw wheel (screen ++ [DrawFrame]) offset (bgcolor env).

(** The four statements that follow every turn (lines 168-171 and
    195-198): [config.recompose(); screen.set_clip(None); req.draw(screen);
    pygame.display.update()]. *)
Definition redraw (env : Env) (offset : Z * Z)
           (wheel : Gadget.ColorWheelGadget) (host : Host)
  : Gadget.ColorWheelGadget * Host :=
  let t := calls host ++ [Recompose (pixel_req_rect host); SetClip] in
  let '(wheel', t') := Requestor_draw env wheel offset t in
  (wheel', mkHost (pixel_req_rect host) (t' ++ [DisplayUpdate])).

(** The [for ge in gevents] loop, lines 178-193: the result is
    [(selected, running)]. *)
Fixpoint scan_gevents (wheel_value : option Color) (gevents : list GadgetEvent)
         (selected : option Color) : option Color * bool :=
  match gevents with
  | [] => (selected, true)
  | ge :: rest =>
      if bool_decide (ge_type ge = TYPE_GADGETUP) then
        if bool_decide (ge_gadget ge = wheel_gadget)
           && bool_decide (is_Some wheel_value)
        then (wheel_value, false)
        else if bool_decide (ge_gadget ge = ok_g) then
          (* If OK pressed without clicking wheel, use last selected or
             initial. *)
          ((if bool_decide (wheel_value <> None) then wheel_value else selected),
           false)
        else if bool_decide (ge_gadget ge = cancel_g) then (None, false)
        else scan_gevents wheel_value rest selected
      else scan_gevents wheel_value rest selected
  end.

(** The local state of [colorwheel_req] while its loop runs. *)
Record Session : Type := mkSession {
  s_wheel : Gadget.ColorWheelGadget;
  s_host : Host;
  s_globals : Globals;
  prr_backup : option Rect;
  selected : option Color
}.

(** How a call of [colorwheel_req] stands: it has returned [selected], it
    is blocked in [config.xevent.wait()] because no further event has
    arrived, or an exception went through it. *)
Inductive Outcome : Type :=
| Returned (selected : option Color) (host : Host) (g : Globals)
| Waiting (st : Session)
| Raised.

(** Lines 200-203: restore [pixel_req_rect], recompose, return. *)
Definition finish (st : Session) : Outcome :=
  let host := mkHost (prr_backup st) (calls (s_host st)) in
  let host := mkHost (pixel_req_rect host)
                     (calls host ++ [Recompose (pixel_req_rect host)]) in
  Returned (selected st) host (s_globals st).

(** The [while running] loop, lines 175-198, on the events that arrive. *)
Fixpoint event_loop `{Toolkit} (env : Env) (inputs : list Input) (st : Session)
  : Outcome :=
  match inputs with
  | [] => Waiting st
  | i :: inputs' =>
      match Requestor_process_event (s_wheel st) i with
      | None => Raised
      | Some (gevents, wheel) =>
          let '(selected, running) :=
            scan_gevents (Gadget.value wheel) gevents (selected st) in
          (* Always redraw background first so wheel stays above *)
          let '(wheel, host) := redraw env (in_offset i) wheel (s_host st) in
          let st' := mkSession wheel host (s_globals st) (prr_backup st)
                               selected in
          if running then event_loop env inputs' st' else finish st'
      end
  end.

Definition radius : Z := 88.
Definition wheel_size : Z := radius * 2.
Definition req_w : Z := wheel_size + 16.
Definition req_h : Z := wheel_size + 40.

Definition req_rect (env : Env) : Rect :=
  ((screen_width env - req_w) / 2, (screen_height env - req_h) / 2,
   req_w, req_h).

Definition wheel_rect (env : Env) : Rect :=
  (8, 8 + fonty env, wheel_size, wheel_size).

Definition ok_rect (env : Env) : Rect :=
  (req_w / 4 - 30, (wheel_rect env).1.1.2 + wheel_size + 4, 60, fonty env).

Definition cancel_rect (env : Env) : Rect :=
  (3 * req_w / 4 - 30, (wheel_rect env).1.1.2 + wheel_size + 4, 60, fonty env).

(** Lines 139-173: the session up to its loop.  [offset] is where the
    requestor first draws its gadgets. *)
Definition open_session `{Toolkit} (env : Env) (initial_rgb : option Color)
           (offset : Z * Z) (g : Globals) (host : Host) : option Session :=
  (* Temporarily override pixel_req_rect *)
  let prr_backup := pixel_req_rect host in
  let host := mkHost (Some (get_screen_rect (req_rect env))) (calls host) in
  '(wheel, g) ← Gadget.__init__ (wheel_rect env) radius g;
  let wheel :=
    match initial_rgb with
    | Some rgb => Gadget.set_value wheel (Some rgb)
    | None => wheel
    end in
  let '(wheel, host) := redraw env offset wheel host in
  Some (mkSession wheel host g prr_backup None).

(** [colorwheel_req(screen, config, initial_rgb)], lines 136-203, run on
    the events [inputs]. *)
Definition colorwheel_req `{Toolkit} (env : Env) (initial_rgb : option Color)
           (offset : Z * Z) (inputs : list Input) (g : Globals) (host : Host)
  : Outcome :=
  match open_session env initial_rgb offset g host with
  | None => Raised
  | Some st => event_loop env inputs st
  end.

(** The gadget whose [TYPE_GADGETUP] notification comes first in a list. *)
Fixpoint first_gadgetup (gevents : list GadgetEvent) : option GadgetId :=
  match gevents with
  | [] => None
  | ge :: rest =>
      if bool_decide (ge_type ge = TYPE_GADGETUP) then Some (ge_gadget ge)
      else first_gadgetup rest
  end.

(** The input [i] activates the control [c] of a waiting session: the first
    [TYPE_GADGETUP] the requestor reports for it comes from [c]. *)
Definition activates `{Toolkit} (st : Session) (i : Input) (c : GadgetId)
  : Prop :=
  exists gevents wheel,
    Requestor_process_event (s_wheel st) i = Some (gevents, wheel) /\
    first_gadgetup gevents = Some c.

(** The session is still pending: the loop has not ended. *)
Definition pending (o : Outcome) : Prop :=
  match o with
  | Waiting _ => True
  | _ => False
  end.

End Req.

Import Req.

(* ===================================================================== *)
(** ** Notions used to state the properties of the session *)
(* ===================================================================== *)

(** The state in which the next turn starts when the loop goes on. *)
Definition next_state (env : Env) (i : Input) (wheel : Gadget.ColorWheelGadget)
           (sel : option Color) (st : Session) : Session :=
  mkSession (redraw env (in_offset i) wheel (s_host st)).1
            (redraw env (in_offset i) wheel (s_host st)).2
            (s_globals st) (prr_backup st) sel.

(** The session was opened with [initial_rgb] while the reserved region
    was [prr]: the wheel still has radius 88 and the value it was seeded
    with, the backup is [prr] and nothing is selected. *)
Definition session_inv (initial_rgb : option Color) (prr : option Rect)
           (st : Session) : Prop :=
  Gadget.radius (s_wheel st) = Req.radius
  /\ Gadget.value (s_wheel st) = initial_rgb
  /\ prr_backup st = prr
  /\ selected st = None.

(* ===================================================================== *)
(** ** A concrete session: a 640x480 screen and a font of height 8 *)
(* ===================================================================== *)

Module Scenario.

Definition env0 : Env := mkEnv 640 480 8 (160, 160, 160).

(** The requestor is centred: [req_rect env0 = (224, 132, 192, 216)], and
    it draws its gadgets relative to its top left corner. *)
Definition offset0 : Z * Z := (224, 132).

(** Nothing rendered yet, nothing drawn, and a region that the host had
    reserved before the wheel is opened. *)
Definition globals0 : Globals := mkGlobals ∅ 0.
Definition host0 : Host := mkHost (Some (16, 16, 100, 50)) [].

(** Releasing the button over the OK gadget, which reports it. *)
Definition press_ok : Input :=
  mkInput (MOUSEBUTTONUP 1) (272, 332)
          [mkGadgetEvent TYPE_GADGETUP (MOUSEBUTTONUP 1) ok_g] offset0.

(** Releasing the button over the Cancel gadget, which reports it. *)
Definition press_cancel : Input :=
  mkInput (MOUSEBUTTONUP 1) (368, 332)
          [mkGadgetEvent TYPE_GADGETUP (MOUSEBUTTONUP 1) cancel_g] offset0.

(** Pressing the primary button on the west rim of the wheel, whose
    centre is at (320, 236). *)
Definition click_west : Input :=
  mkInput (MOUSEBUTTONDOWN 1) (232, 236) [] offset0.

(** The wheel gadget as the first draw of that session places it. *)
Definition placed_wheel : Gadget.ColorWheelGadget :=
  Gadget.mkGadget (8, 16, 176, 176) 88 (mkSurface 0 0 ∅) false true 224 132
                  (232, 148, 176, 176) None.

(** A blank 640x480 screen. *)
Definition screen0 : Surface := mkSurface 640 480 ∅.

End Scenario.

(* ===================================================================== *)
(** ** Notions used to state further properties of the code *)
(* ===================================================================== *)

(** A colour at full brightness: one channel is 255. *)
Definition bright (c : Color) : Prop :=
  let '(r, g, b) := c in r = 255 \/ g = 255 \/ b = 255.

(** A colour at full saturation: one channel is 0. *)
Definition saturated (c : Color) : Prop :=
  let '(r, g, b) := c in r = 0 \/ g = 0 \/ b = 0.

(** The pixel positions a rectangle covers ([rect_points], as a test). *)
Definition in_rect (r : Rect) (p : Z * Z) : bool :=
  let '(x, y, w, h) := r in
  (x <=? p.1) && (p.1 <? x + w) && (y <=? p.2) && (p.2 <? y + h).

(** Where [draw] blits the buffer of a gadget drawn at [offset]. *)
Definition blit_rect (self : Gadget.ColorWheelGadget) (offset : Z * Z) : Rect :=
  let '(x, y, w, h) := Gadget.rect self in
  get_rect_center (Gadget._wheel_surf self)
                  (x + offset.1 + w / 2, y + offset.2 + h / 2).

(** The rectangle [rect] moved by [offset]. *)
Definition moved (r : Rect) (offset : Z * Z) : Rect :=
  let '(x, y, w, h) := r in (x + offset.1, y + offset.2, w, h).

(** Every entry of the dictionary is the rendering of its key. *)
Definition cache_faithful (g : Globals) : Prop :=
  forall radius surf,
    _WHEEL_CACHE g !! radius = Some surf ->
    _generate_wheel_surface radius = Some surf.

(** No key of the dictionary is negative. *)
Definition keys_nonnegative (g : Globals) : Prop :=
  forall r, r ∈ dom (_WHEEL_CACHE g) -> 0 <= r.

(** In the list of host calls [t], every recompose finds the region [r]
    reserved. *)
Definition recomposes_see (r : option Rect) (t : list HostCall) : Prop :=
  forall r', Recompose r' ∈ t -> r' = r.

(** The number of [pygame.display.update()] calls in a list of host calls. *)
Fixpoint display_updates (t : list HostCall) : nat :=
  match t with
  | [] => 0
  | DisplayUpdate :: t' => S (display_updates t')
  | _ :: t' => display_updates t'
  end.

#[export] Instance Event_eq_dec : EqDecision Event.
Proof. solve_decision. Defined.

(** A placed gadget like [Scenario.placed_wheel], with another radius. *)
Definition wheel_of_radius (radius : Z) : Gadget.ColorWheelGadget :=
  Gadget.mkGadget (8, 16, 176, 176) radius (mkSurface 0 0 ∅) false true 224 132
                  (232, 148, 176, 176) None.
(* --------------------------------------------------------------------- *)
(** *** Numeric lemmas *)
(* --------------------------------------------------------------------- *)

Section Numerics.

Local Open Scope R_scope.

Lemma int_nonneg_floor x : 0 <= x -> Py.int x = Zfloor x.
Proof. intros H. unfold Py.int. destruct (Rle_dec 0 x); [reflexivity | lra]. Qed.

Lemma int_IZR z : Py.int (IZR z) = z.
Proof.
  unfold Py.int. destruct (Rle_dec 0 (IZR z)).
  - apply ZfloorZ.
  - unfold Zceil. rewrite <- opp_IZR, ZfloorZ. lia.
Qed.

(** Truncating a value of [0, n] gives an integer of [0, n]. *)
Lemma int_range x (n : Z) : 0 <= x <= IZR n -> (0 <= Py.int x <= n)%Z.
Proof.
  intros [H0 Hn]. rewrite int_nonneg_floor by assumption.
  split.
  - apply (Zfloor_lub 0). exact H0.
  - rewrite <- (ZfloorZ n). apply Zfloor_le. exact Hn.
Qed.

Lemma fmod_range x m : 0 < m -> 0 <= Py.fmod x m < m.
Proof.
  intros Hm. unfold Py.fmod.
  destruct (Zfloor_bound (x / m)) as [Hlo Hhi].
  assert (Hx : x = m * (x / m)) by (field; lra).
  set (k := IZR (Zfloor (x / m))) in *.
  split.
  - assert (m * k <= m * (x / m)) by (apply Rmult_le_compat_l; lra). lra.
  - assert (m * (x / m) < m * (k + 1)) by (apply Rmult_lt_compat_l; lra). lra.
Qed.

Lemma hue_range dx dy : 0 <= hue_of dx dy < 1.
Proof.
  unfold hue_of.
  assert (Hpi : 0 < 2 * PI) by (pose proof PI_RGT_0; lra).
  destruct (fmod_range (Py.atan2 (- IZR dy) (IZR dx)) _ Hpi) as [Hlo Hhi].
  split.
  - apply Rmult_le_pos; [exact Hlo |]. left. apply Rinv_0_lt_compat. exact Hpi.
  - apply (Rmult_lt_reg_r (2 * PI)); [exact Hpi |].
    unfold Rdiv. rewrite Rmult_assoc, Rinv_l by lra. lra.
Qed.

End Numerics.

Section HsvBounds.

Local Open Scope R_scope.


(** The fractional part [f] that [hsv_to_rgb] computes lies in [0, 1). *)
Lemma sector_fraction h :
  0 <= h -> 0 <= h * 6 - IZR (Py.int (h * 6)) < 1.
Proof.
  intros Hh. rewrite int_nonneg_floor by lra.
  destruct (Zfloor_bound (h * 6)). lra.
Qed.

(** At full brightness every channel of [hsv_to_rgb] is in [0, 1] and
    at least one channel is exactly 1. *)
Lemma hsv_to_rgb_unit h s :
  0 <= h -> unit_interval s ->
  let '(r, g, b) := colorsys.hsv_to_rgb h s 1 in
  (unit_interval r /\ unit_interval g /\ unit_interval b) /\
  (r = 1 \/ g = 1 \/ b = 1).
Proof.
  intros Hh [Hs0 Hs1]. unfold colorsys.hsv_to_rgb, unit_interval.
  destruct (Req_dec_T s 0) as [_ | _]; [lra |].
  pose proof (sector_fraction h Hh) as Hf.
  set (f := h * 6 - IZR (Py.int (h * 6))) in *.
  assert (Hp : 0 <= 1 * (1 - s) <= 1) by lra.
  assert (Hsf : 0 <= s * f <= 1) by nra.
  assert (Hsg : 0 <= s * (1 - f) <= 1) by nra.
  assert (Hq : 0 <= 1 * (1 - s * f) <= 1) by lra.
  assert (Ht : 0 <= 1 * (1 - s * (1 - f)) <= 1) by lra.
  repeat match goal with
         | |- context [if ?b then _ else _] => destruct b
         end; lra.
Qed.

Lemma to_rgb255_ok r g b :
  unit_interval r -> unit_interval g -> unit_interval b ->
  color_ok (to_rgb255 (r, g, b)).
Proof.
  unfold unit_interval, color_ok, to_rgb255, channel_ok.
  intros Hr Hg Hb.
  split; [| split]; apply int_range; lra.
Qed.

Lemma to_rgb255_one_channel r g b :
  r = 1 \/ g = 1 \/ b = 1 ->
  let '(r', g', b') := to_rgb255 (r, g, b) in
  (r' = 255 \/ g' = 255 \/ b' = 255)%Z.
Proof.
  assert (H255 : Py.int (1 * 255) = 255%Z)
    by (rewrite Rmult_1_l; apply int_IZR).
  unfold to_rgb255.
  intros [-> | [-> | ->]]; rewrite H255; auto.
Qed.

Lemma saturation_unit d : 0 <= d -> unit_interval (Rmin 1 d).
Proof.
  intros Hd. unfold unit_interval.
  split; [apply Rmin_case; lra | apply Rmin_l].
Qed.

Lemma hypot_nonneg dx dy : 0 <= Py.hypot dx dy.
Proof. apply sqrt_pos. Qed.

(** For integer displacements and a non-negative integer radius the
    float test [dist > radius] is the integer test on the squares. *)
Lemma hypot_gt_iff (dx dy radius : Z) :
  (0 <= radius)%Z ->
  Py.hypot (IZR dx) (IZR dy) > IZR radius <->
  (radius * radius < dx * dx + dy * dy)%Z.
Proof.
  intros Hr. unfold Py.hypot.
  assert (HrR : 0 <= IZR radius) by (apply IZR_le; exact Hr).
  rewrite <- (sqrt_square (IZR radius)) at 1 by exact HrR.
  rewrite <- !mult_IZR, <- plus_IZR.
  assert (Hsq : (0 <= dx * dx + dy * dy)%Z) by nia.
  assert (Hrr : (0 <= radius * radius)%Z) by nia.
  split.
  - intros H. apply lt_IZR. apply sqrt_lt_0; [apply IZR_le .. | ]; auto.
  - intros H. apply sqrt_lt_1; [apply IZR_le .. | apply IZR_lt]; auto.
Qed.

Lemma hypot_eq_iff (dx dy radius : Z) :
  (0 <= radius)%Z ->
  Py.hypot (IZR dx) (IZR dy) = IZR radius <->
  (dx * dx + dy * dy = radius * radius)%Z.
Proof.
  intros Hr. unfold Py.hypot.
  assert (HrR : 0 <= IZR radius) by (apply IZR_le; exact Hr).
  rewrite <- !mult_IZR, <- plus_IZR.
  assert (Hsq : (0 <= dx * dx + dy * dy)%Z) by nia.
  split.
  - intros H. apply eq_IZR. rewrite mult_IZR, <- H.
    symmetry. apply sqrt_def. apply IZR_le. exact Hsq.
  - intros ->. rewrite mult_IZR. apply sqrt_square. exact HrR.
Qed.

End HsvBounds.

(** Whenever the pixel formula yields a colour, it is an 8-bit triple with
    a saturated channel, hence never [BLACK]. *)
Lemma hsv_pixel_ok radius dx dy dist c :
  (0 <= dist)%R -> 0 < radius ->
  hsv_pixel radius dx dy dist = Some c ->
  color_ok c /\ c <> BLACK.
Proof.
  intros Hd Hr. unfold hsv_pixel, Py.div.
  destruct (Req_dec_T (IZR radius) 0) as [? | Hne]; [discriminate |].
  intros [= <-].
  assert (HrR : (0 < IZR radius)%R) by (apply IZR_lt; exact Hr).
  assert (Hs : unit_interval (Rmin 1 (dist / IZR radius))).
  { apply saturation_unit. apply Rmult_le_pos; [exact Hd |].
    left. apply Rinv_0_lt_compat. exact HrR. }
  destruct (hue_range dx dy) as [Hh _].
  pose proof (hsv_to_rgb_unit _ _ Hh Hs) as H.
  destruct (colorsys.hsv_to_rgb (hue_of dx dy) (Rmin 1 (dist / IZR radius)) 1)
    as [[r g] b].
  destruct H as [(Hr' & Hg' & Hb') Hone].
  split.
  - apply to_rgb255_ok; assumption.
  - pose proof (to_rgb255_one_channel r g b Hone) as H1.
    destruct (to_rgb255 (r, g, b)) as [[r' g'] b'].
    unfold BLACK. intros [= -> -> ->]. lia.
Qed.

Lemma hsv_pixel_defined radius dx dy dist :
  radius <> 0 -> is_Some (hsv_pixel radius dx dy dist).
Proof.
  intros Hr. unfold hsv_pixel, Py.div.
  destruct (Req_dec_T (IZR radius) 0) as [H0 | _]; [| eauto].
  exfalso. apply Hr. apply eq_IZR. exact H0.
Qed.

Section SurfaceLemmas.

Lemma in_surface_spec s p :
  in_surface s p = true <-> 0 <= p.1 < surf_w s /\ 0 <= p.2 < surf_h s.
Proof. unfold in_surface. rewrite !andb_true_iff. lia. Qed.

Lemma in_surface_set_at s q c p :
  in_surface (set_at s q c) p = in_surface s p.
Proof. unfold set_at. destruct (in_surface s q); reflexivity. Qed.

Lemma set_at_dims s q c :
  surf_w (set_at s q c) = surf_w s /\ surf_h (set_at s q c) = surf_h s.
Proof. unfold set_at. destruct (in_surface s q); auto. Qed.

Lemma get_at_set_at_eq s p c :
  in_surface s p = true -> get_at (set_at s p c) p = Some c.
Proof.
  intros Hin. unfold get_at. rewrite in_surface_set_at, Hin.
  unfold set_at, pixel. rewrite Hin. simpl.
  by rewrite lookup_insert_eq.
Qed.

Lemma get_at_set_at_ne s p q c :
  p <> q -> get_at (set_at s p c) q = get_at s q.
Proof.
  intros Hne. unfold get_at. rewrite in_surface_set_at.
  destruct (in_surface s q); [| reflexivity].
  unfold set_at, pixel. destruct (in_surface s p); [| reflexivity].
  simpl. by rewrite lookup_insert_ne.
Qed.

Lemma paint_dims g f ps s :
  surf_w (paint g f ps s) = surf_w s /\ surf_h (paint g f ps s) = surf_h s.
Proof.
  revert s. induction ps as [| p ps IH]; intros s; [auto |].
  simpl. destruct (IH (set_at s (g p) (f p))) as [-> ->].
  apply set_at_dims.
Qed.

Lemma in_surface_paint g f ps s p :
  in_surface (paint g f ps s) p = in_surface s p.
Proof.
  unfold in_surface. by destruct (paint_dims g f ps s) as [-> ->].
Qed.

(** A position no step of the loop targets keeps its pixel. *)
Lemma get_at_paint_other g f ps s q :
  (forall p, p ∈ ps -> g p <> q) ->
  get_at (paint g f ps s) q = get_at s q.
Proof.
  revert s. induction ps as [| p ps IH]; intros s Hps; [reflexivity |].
  simpl. rewrite IH.
  - apply get_at_set_at_ne. apply Hps. left.
  - intros p' Hp'. apply Hps. by right.
Qed.

(** A position inside the surface that the loop targets ends with the
    colour [v], provided every step that targets it writes [v]. *)
Lemma get_at_paint_hit g f ps s q v :
  in_surface s q = true ->
  (forall p, p ∈ ps -> g p = q -> f p = v) ->
  (exists p, p ∈ ps /\ g p = q) \/ get_at s q = Some v ->
  get_at (paint g f ps s) q = Some v.
Proof.
  revert s. induction ps as [| p ps IH]; intros s Hin Hall Hex.
  - destruct Hex as [(p & Hp & _) | H]; [by apply elem_of_nil in Hp | exact H].
  - simpl. apply IH.
    + by rewrite in_surface_set_at.
    + intros p' Hp'. apply Hall. by right.
    + destruct (decide (g p = q)) as [Heq | Hne].
      * right. rewrite <- Heq. rewrite (Hall p); [| left | exact Heq].
        apply get_at_set_at_eq. by rewrite Heq.
      * destruct Hex as [(p' & Hp' & Hg) | H].
        -- apply elem_of_cons in Hp' as [-> | Hp']; [done |].
           left. eauto.
        -- right. by rewrite get_at_set_at_ne.
Qed.

Lemma elem_of_rect_points x y w h p :
  p ∈ rect_points (x, y, w, h) <-> x <= p.1 < x + w /\ y <= p.2 < y + h.
Proof.
  unfold rect_points. rewrite list_elem_of_bind.
  split.
  - intros (y' & Hx & Hy). apply list_elem_of_bind in Hx as (x' & Hp & Hx).
    apply list_elem_of_singleton in Hp as ->. simpl.
    apply elem_of_seqZ in Hx, Hy. lia.
  - intros [Hx Hy]. exists p.2. split; [| apply elem_of_seqZ; lia].
    apply list_elem_of_bind. exists p.1.
    split; [| apply elem_of_seqZ; lia].
    destruct p. simpl. apply list_elem_of_singleton. reflexivity.
Qed.

End SurfaceLemmas.

Section Renderer.

Lemma for_each_total {S : Type} (step : Z -> S -> S) body xs (s : S) :
  (forall x s, x ∈ xs -> body x s = Some (step x s)) ->
  for_each xs body s = Some (foldl (fun s x => step x s) s xs).
Proof.
  revert s. induction xs as [| x xs IH]; intros s Hbody; [reflexivity |].
  simpl. rewrite Hbody by left. apply IH.
  intros x' s' Hx'. apply Hbody. by right.
Qed.

(** Two nested loops over rows and columns visit [rect_points]. *)
Lemma nested_paint f xs ys s :
  foldl (fun s y => foldl (fun s x => set_at s (x, y) (f (x, y))) s xs) s ys
  = paint (fun p => p) f (y ← ys; x ← xs; [(x, y)]) s.
Proof.
  unfold paint. revert s. induction ys as [| y ys IH]; intros s; [reflexivity |].
  simpl. rewrite foldl_app, IH. f_equal.
  clear. revert s. induction xs as [| x xs IHx]; intros s; [reflexivity |].
  simpl. apply IHx.
Qed.

Lemma render_step radius x y surf :
  radius <> 0 ->
  (let dx := x - radius in
   let dy := y - radius in
   let dist := Py.hypot (IZR dx) (IZR dy) in
   if Rgt_dec dist (IZR radius) then Some (set_at surf (x, y) (0, 0, 0))
   else c ← hsv_pixel radius dx dy dist; Some (set_at surf (x, y) c))
  = Some (set_at surf (x, y) (stored (spec_render_pixel radius x y))).
Proof.
  intros Hr. cbv zeta. unfold spec_render_pixel, Py.hypot.
  destruct (Rgt_dec _ _); [reflexivity |].
  unfold hsv_pixel, Py.div, hue_of.
  destruct (Req_dec_T (IZR radius) 0) as [H0 | _]; [| reflexivity].
  exfalso. apply Hr. apply eq_IZR. exact H0.
Qed.

Lemma generate_paint radius :
  0 < radius ->
  _generate_wheel_surface radius
  = Some (paint (fun p => p)
                (fun p => stored (spec_render_pixel radius p.1 p.2))
                (rect_points (0, 0, radius * 2, radius * 2))
                (mkSurface (radius * 2) (radius * 2) ∅)).
Proof.
  intros Hr. unfold _generate_wheel_surface, new_Surface.
  replace ((radius * 2 <? 0) || (radius * 2 <? 0)) with false
    by (symmetry; apply orb_false_iff; split; apply Z.ltb_ge; lia).
  simpl.
  rewrite (for_each_total
             (fun y s => foldl (fun s x =>
                set_at s (x, y) (stored (spec_render_pixel radius x y))) s
                (range (radius * 2)))).
  - f_equal.
    apply (nested_paint (fun p => stored (spec_render_pixel radius p.1 p.2))).
  - intros y s _. apply for_each_total.
    intros x s' _. apply render_step. lia.
Qed.

Lemma generate_total radius :
  0 <= radius -> is_Some (_generate_wheel_surface radius).
Proof.
  intros Hr. destruct (decide (radius = 0)) as [-> | Hne].
  - by eexists.
  - rewrite generate_paint by lia. by eexists.
Qed.

(** An in-wheel pixel of the specification is 8-bit and not the mark. *)
Lemma spec_render_pixel_ok radius x y c :
  0 < radius ->
  spec_render_pixel radius x y = InWheel c ->
  color_ok c /\ c <> BLACK.
Proof.
  intros Hr Hpx.
  apply (hsv_pixel_ok radius (x - radius) (y - radius)
           (Py.hypot (IZR (x - radius)) (IZR (y - radius))));
    [apply hypot_nonneg | exact Hr |].
  unfold spec_render_pixel, Py.hypot in *.
  destruct (Rgt_dec _ _); [discriminate |].
  injection Hpx as <-.
  unfold hsv_pixel, Py.div, hue_of.
  destruct (Req_dec_T (IZR radius) 0) as [H0 | _]; [| reflexivity].
  apply eq_IZR in H0. lia.
Qed.

End Renderer.

(* ===================================================================== *)
(** ** The cache *)
(* ===================================================================== *)

Section CacheLemmas.

(** A cached radius is served from the dictionary: no rendering, no
    change of the module state. *)
Lemma get_cached radius g surf :
  _WHEEL_CACHE g !! radius = Some surf ->
  _get_wheel_surface radius g = Some (surf, g).
Proof. intros H. unfold _get_wheel_surface. by rewrite H. Qed.

Lemma get_fresh radius g surf :
  _WHEEL_CACHE g !! radius = None ->
  _generate_wheel_surface radius = Some surf ->
  _get_wheel_surface radius g
  = Some (surf, mkGlobals (<[radius := surf]> (_WHEEL_CACHE g))
                          (S (generate_calls g))).
Proof. intros H Hgen. unfold _get_wheel_surface. by rewrite H, Hgen. Qed.

(** Whatever a call returns is in the dictionary afterwards. *)
Lemma get_stores radius g surf g' :
  _get_wheel_surface radius g = Some (surf, g') ->
  _WHEEL_CACHE g' !! radius = Some surf.
Proof.
  unfold _get_wheel_surface.
  destruct (_WHEEL_CACHE g !! radius) as [s |] eqn:Hc.
  - by intros [= <- <-].
  - destruct (_generate_wheel_surface radius) as [s |]; [| discriminate].
    simpl. intros [= <- <-]. simpl. apply lookup_insert_eq.
Qed.

Lemma get_total radius g :
  0 <= radius -> is_Some (_get_wheel_surface radius g).
Proof.
  intros Hr. unfold _get_wheel_surface.
  destruct (_WHEEL_CACHE g !! radius); [by eexists |].
  destruct (generate_total radius Hr) as [s ->]. by eexists.
Qed.

(** No call removes or replaces an entry. *)
Lemma after_call_keeps g r radius surf :
  _WHEEL_CACHE g !! radius = Some surf ->
  _WHEEL_CACHE (after_call g r) !! radius = Some surf.
Proof.
  intros H. unfold after_call, _get_wheel_surface.
  destruct (_WHEEL_CACHE g !! r) as [s |] eqn:Hc; [exact H |].
  destruct (_generate_wheel_surface r) as [s |]; simpl; [| exact H].
  rewrite lookup_insert_ne; [exact H |].
  intros ->. congruence.
Qed.

Lemma after_calls_keep radii g radius surf :
  _WHEEL_CACHE g !! radius = Some surf ->
  _WHEEL_CACHE (after_calls g radii) !! radius = Some surf.
Proof.
  revert g. induction radii as [| r radii IH]; intros g H; [exact H |].
  simpl. apply IH. by apply after_call_keeps.
Qed.

End CacheLemmas.

(* ===================================================================== *)
(** ** The gadget *)
(* ===================================================================== *)

Section GadgetLemmas.

Context `{Toolkit}.

(** The three ways [process_event] ends. *)
Lemma process_event_cases self event mouse :
  Gadget.process_event self event mouse = Some ([], self)
  \/ Gadget.process_event self event mouse = None
  \/ exists c x y w h,
       event = MOUSEBUTTONDOWN 1 /\
       pointin mouse (Gadget.screenrect self) = true /\
       Gadget.screenrect self = (x, y, w, h) /\
       hsv_pixel (Gadget.radius self)
                 (mouse.1 - (x + w / 2)) (mouse.2 - (y + h / 2))
                 (Py.hypot (IZR (mouse.1 - (x + w / 2)))
                           (IZR (mouse.2 - (y + h / 2)))) = Some c /\
       ~ (Py.hypot (IZR (mouse.1 - (x + w / 2)))
                   (IZR (mouse.2 - (y + h / 2)))
          > IZR (Gadget.radius self))%R /\
       Gadget.process_event self event mouse
       = Some ([mkGadgetEvent TYPE_GADGETUP event wheel_gadget],
               Gadget.set_value self (Some c)).
Proof.
  unfold Gadget.process_event. destruct mouse as [mx my].
  destruct event as [b | b |]; [| | by left].
  - destruct (pointin (mx, my) (Gadget.screenrect self)) eqn:Hin; simpl;
      [| by left].
    destruct b as [| [p | p |] | p]; try by left.
    destruct (Gadget.screenrect self) as [[[x y] w] h] eqn:Hrect.
    destruct (Rgt_dec _ _) as [Hgt | Hle]; [by left |].
    destruct (hsv_pixel _ _ _ _) as [c |] eqn:Hpx; simpl; [| by (right; left)].
    right; right. exists c, x, y, w, h. by repeat split.
  - destruct (pointin (mx, my) (Gadget.screenrect self)); simpl; by left.
Qed.

(** A primary-button press beyond the radius is ignored, wherever the
    placement rectangle is. *)
Lemma process_event_outside self mx my x y w h :
  Gadget.screenrect self = (x, y, w, h) ->
  (Py.hypot (IZR (mx - (x + w / 2))) (IZR (my - (y + h / 2)))
   > IZR (Gadget.radius self))%R ->
  Gadget.process_event self (MOUSEBUTTONDOWN 1) (mx, my) = Some ([], self).
Proof.
  intros Hrect Hgt. unfold Gadget.process_event.
  destruct (pointin (mx, my) (Gadget.screenrect self)); simpl; [| reflexivity].
  rewrite Hrect. by destruct (Rgt_dec _ _).
Qed.

(** A primary-button press inside the rectangle and within the radius
    sets [value] and reports one [TYPE_GADGETUP]. *)
Lemma process_event_click self mx my x y w h :
  Gadget.radius self <> 0 ->
  Gadget.screenrect self = (x, y, w, h) ->
  pointin (mx, my) (Gadget.screenrect self) = true ->
  ~ (Py.hypot (IZR (mx - (x + w / 2))) (IZR (my - (y + h / 2)))
     > IZR (Gadget.radius self))%R ->
  exists c,
    hsv_pixel (Gadget.radius self) (mx - (x + w / 2)) (my - (y + h / 2))
              (Py.hypot (IZR (mx - (x + w / 2))) (IZR (my - (y + h / 2))))
    = Some c /\
    Gadget.process_event self (MOUSEBUTTONDOWN 1) (mx, my)
    = Some ([mkGadgetEvent TYPE_GADGETUP (MOUSEBUTTONDOWN 1) wheel_gadget],
            Gadget.set_value self (Some c)).
Proof.
  intros Hr Hrect Hin Hle. unfold Gadget.process_event.
  rewrite Hin. simpl. rewrite Hrect.
  destruct (Rgt_dec _ _) as [Hgt | _]; [contradiction |].
  destruct (hsv_pixel_defined (Gadget.radius self) (mx - (x + w / 2))
              (my - (y + h / 2))
              (Py.hypot (IZR (mx - (x + w / 2))) (IZR (my - (y + h / 2)))) Hr)
    as [c Hc].
  exists c. rewrite Hc. by split.
Qed.

(** The colour of a click is the pixel the renderer stores at the same
    displacement from the centre. *)
Lemma hsv_pixel_render radius dx dy c :
  ~ (Py.hypot (IZR dx) (IZR dy) > IZR radius)%R ->
  hsv_pixel radius dx dy (Py.hypot (IZR dx) (IZR dy)) = Some c ->
  spec_render_pixel radius (dx + radius) (dy + radius) = InWheel c.
Proof.
  intros Hle. unfold hsv_pixel, Py.div, spec_render_pixel, hue_of, Py.hypot in *.
  replace (dx + radius - radius) with dx by lia.
  replace (dy + radius - radius) with dy by lia.
  destruct (Req_dec_T (IZR radius) 0); [discriminate |].
  intros [= <-]. by destruct (Rgt_dec _ _).
Qed.

Lemma place_value self offset :
  Gadget.value (Gadget.place self offset) = Gadget.value self.
Proof.
  unfold Gadget.place. by destruct (Gadget.rect self) as [[[? ?] ?] ?], offset.
Qed.

Lemma place_radius self offset :
  Gadget.radius (Gadget.place self offset) = Gadget.radius self.
Proof.
  unfold Gadget.place. by destruct (Gadget.rect self) as [[[? ?] ?] ?], offset.
Qed.

Lemma draw_value {S : Type} `{Canvas S} self (screen : S) offset bg :
  Gadget.value (Gadget.draw self screen offset bg).1 = Gadget.value self
  /\ Gadget.radius (Gadget.draw self screen offset bg).1 = Gadget.radius self.
Proof.
  unfold Gadget.draw.
  pose proof (place_value self offset) as Hv.
  pose proof (place_radius self offset) as Hr.
  destruct (Gadget.rect (Gadget.place self offset)) as [[[x y] w] h].
  destruct offset as [xo yo].
  destruct (negb (Gadget.need_redraw (Gadget.place self (xo, yo)))); simpl; auto.
Qed.

End GadgetLemmas.

(* ===================================================================== *)
(** ** The session *)
(* ===================================================================== *)

Section SessionLemmas.

Context `{Toolkit}.

(** *** The [for ge in gevents] loop, by the first [TYPE_GADGETUP] *)

Lemma scan_none v gevents sel :
  first_gadgetup gevents = None ->
  scan_gevents v gevents sel = (sel, true).
Proof.
  induction gevents as [| ge rest IH]; intros Hf; [reflexivity |].
  simpl in *. destruct (bool_decide (ge_type ge = TYPE_GADGETUP));
    [discriminate | by apply IH].
Qed.

Lemma scan_wheel c gevents sel :
  first_gadgetup gevents = Some wheel_gadget ->
  scan_gevents (Some c) gevents sel = (Some c, false).
Proof.
  induction gevents as [| ge rest IH]; intros Hf; [discriminate |].
  simpl in *. destruct (bool_decide (ge_type ge = TYPE_GADGETUP));
    [| by apply IH].
  injection Hf as ->. reflexivity.
Qed.

Lemma scan_ok v gevents sel :
  first_gadgetup gevents = Some ok_g ->
  scan_gevents v gevents sel
  = (match v with Some c => Some c | None => sel end, false).
Proof.
  induction gevents as [| ge rest IH]; intros Hf; [discriminate |].
  simpl in *. destruct (bool_decide (ge_type ge = TYPE_GADGETUP));
    [| by apply IH].
  injection Hf as ->. simpl. by destruct v.
Qed.

Lemma scan_cancel v gevents sel :
  first_gadgetup gevents = Some cancel_g ->
  scan_gevents v gevents sel = (None, false).
Proof.
  induction gevents as [| ge rest IH]; intros Hf; [discriminate |].
  simpl in *. destruct (bool_decide (ge_type ge = TYPE_GADGETUP));
    [| by apply IH].
  injection Hf as ->. reflexivity.
Qed.

(** While the loop keeps running, [selected] is not assigned. *)
Lemma scan_running v gevents sel sel' :
  scan_gevents v gevents sel = (sel', true) -> sel' = sel.
Proof.
  induction gevents as [| ge rest IH]; simpl; [by intros [= ->] |].
  repeat match goal with
         | |- context [if ?b then _ else _] => destruct b
         end; try discriminate; apply IH.
Qed.

(** A wheel notification for a gadget with a value ends the loop. *)
Lemma scan_wheel_first c ev rest sel :
  scan_gevents (Some c) (mkGadgetEvent TYPE_GADGETUP ev wheel_gadget :: rest) sel
  = (Some c, false).
Proof. reflexivity. Qed.

(** *** Redrawing *)

Lemma redraw_frame env offset wheel host :
  Gadget.value (redraw env offset wheel host).1 = Gadget.value wheel
  /\ Gadget.radius (redraw env offset wheel host).1 = Gadget.radius wheel
  /\ pixel_req_rect (redraw env offset wheel host).2 = pixel_req_rect host.
Proof.
  unfold redraw, Requestor_draw.
  pose proof (draw_value wheel
    ((calls host ++ [Recompose (pixel_req_rect host); SetClip]) ++ [DrawFrame])
    offset (bgcolor env)) as [Hv Hr].
  destruct (Gadget.draw _ _ _ _) as [wheel' t']. simpl in *. auto.
Qed.

(** *** One turn of the loop *)


Lemma event_loop_cons env i inputs st gevents wheel :
  Requestor_process_event (s_wheel st) i = Some (gevents, wheel) ->
  event_loop env (i :: inputs) st
  = let sr := scan_gevents (Gadget.value wheel) gevents (selected st) in
    if sr.2 then event_loop env inputs (next_state env i wheel sr.1 st)
    else finish (next_state env i wheel sr.1 st).
Proof.
  intros Hp. simpl. rewrite Hp. unfold next_state.
  destruct (scan_gevents _ _ _) as [sel running].
  destruct (redraw _ _ _ _) as [wheel' host']. reflexivity.
Qed.

Lemma event_loop_app env pre rest st :
  event_loop env (pre ++ rest) st
  = match event_loop env pre st with
    | Waiting st' => event_loop env rest st'
    | o => o
    end.
Proof.
  revert st. induction pre as [| i pre IH]; intros st; [reflexivity |].
  simpl. destruct (Requestor_process_event (s_wheel st) i) as [[gevents wheel] |];
    [| reflexivity].
  destruct (scan_gevents _ _ _) as [sel running].
  destruct (redraw _ _ _ _) as [wheel' host'].
  destruct running; [apply IH | reflexivity].
Qed.

(** What the requestor reports: the wheel's own notification, if any,
    comes first. *)
Lemma requestor_cases wheel i :
  Requestor_process_event wheel i = Some (in_controls i, wheel)
  \/ Requestor_process_event wheel i = None
  \/ exists c,
       Requestor_process_event wheel i
       = Some (mkGadgetEvent TYPE_GADGETUP (in_event i) wheel_gadget
                 :: in_controls i,
               Gadget.set_value wheel (Some c)).
Proof.
  unfold Requestor_process_event.
  destruct (process_event_cases wheel (in_event i) (in_mouse i))
    as [-> | [-> | (c & x & y & w & h & _ & _ & _ & _ & _ & ->)]];
    simpl; eauto.
Qed.

(** *** Invariant of a waiting session *)


Lemma next_state_inv env i init prr st gevents wheel sel :
  session_inv init prr st ->
  Requestor_process_event (s_wheel st) i = Some (gevents, wheel) ->
  scan_gevents (Gadget.value wheel) gevents (selected st) = (sel, true) ->
  session_inv init prr (next_state env i wheel sel st).
Proof.
  intros (Hr & Hv & Hb & Hs) Hp Hscan.
  pose proof (scan_running _ _ _ _ Hscan) as ->.
  destruct (redraw_frame env (in_offset i) wheel (s_host st)) as (Hv' & Hr' & _).
  unfold session_inv, next_state. simpl. rewrite Hv', Hr'.
  destruct (requestor_cases (s_wheel st) i) as [Hq | [Hq | [c Hq]]];
    rewrite Hq in Hp; try discriminate.
  - injection Hp as _ <-. auto.
  - injection Hp as <- <-. simpl in Hscan. discriminate.
Qed.

Lemma event_loop_waiting_inv env init prr inputs st st' :
  session_inv init prr st ->
  event_loop env inputs st = Waiting st' ->
  session_inv init prr st'.
Proof.
  revert st. induction inputs as [| i inputs IH]; intros st Hinv.
  - simpl. by intros [= <-].
  - destruct (Requestor_process_event (s_wheel st) i) as [[gevents wheel] |]
      eqn:Hp; [| simpl; rewrite Hp; discriminate].
    rewrite (event_loop_cons _ _ _ _ _ _ Hp). cbv zeta.
    destruct (scan_gevents _ _ _) as [sel [|]] eqn:Hscan; simpl.
    + apply IH. by eapply next_state_inv.
    + discriminate.
Qed.

(** Whenever the loop ends, the region is the backup again, and the last
    thing the host did is the final recompose with it. *)
Lemma event_loop_returned env inputs st sel host g :
  event_loop env inputs st = Returned sel host g ->
  pixel_req_rect host = prr_backup st
  /\ exists t, calls host = t ++ [Recompose (prr_backup st)].
Proof.
  revert st. induction inputs as [| i inputs IH]; intros st; [discriminate |].
  destruct (Requestor_process_event (s_wheel st) i) as [[gevents wheel] |]
    eqn:Hp; [| simpl; rewrite Hp; discriminate].
  rewrite (event_loop_cons _ _ _ _ _ _ Hp). cbv zeta.
  destruct (scan_gevents _ _ _) as [sel' [|]]; simpl.
  - intros Hl. apply IH in Hl. exact Hl.
  - unfold finish. intros [= _ <- _]. simpl. eauto.
Qed.

(** With a wheel of non-zero radius no turn raises. *)
Lemma event_loop_no_raise env init prr inputs st :
  session_inv init prr st -> event_loop env inputs st <> Raised.
Proof.
  revert st. induction inputs as [| i inputs IH]; intros st Hinv; [discriminate |].
  destruct (Requestor_process_event (s_wheel st) i) as [[gevents wheel] |]
    eqn:Hp.
  - rewrite (event_loop_cons _ _ _ _ _ _ Hp). cbv zeta.
    destruct (scan_gevents _ _ _) as [sel [|]] eqn:Hscan; simpl.
    + apply IH. by eapply next_state_inv.
    + discriminate.
  - exfalso. destruct Hinv as (Hr & _).
    unfold Requestor_process_event in Hp.
    destruct (process_event_cases (s_wheel st) (in_event i) (in_mouse i))
      as [Hq | [Hq | (c & x & y & w & h & _ & _ & _ & _ & _ & Hq)]];
      rewrite Hq in Hp; try discriminate.
    clear Hp. unfold Gadget.process_event in Hq.
    destruct (in_mouse i) as [mx my], (in_event i) as [b | b |];
      try discriminate.
    + destruct (negb _); [discriminate |].
      destruct b as [| [p | p |] | p]; try discriminate.
      destruct (Gadget.screenrect (s_wheel st)) as [[[x y] w] h].
      destruct (Rgt_dec _ _); [discriminate |].
      destruct (hsv_pixel_defined (Gadget.radius (s_wheel st))
                  (mx - (x + w / 2)) (my - (y + h / 2))
                  (Py.hypot (IZR (mx - (x + w / 2))) (IZR (my - (y + h / 2)))))
        as [c Hc]; [rewrite Hr; discriminate |].
      rewrite Hc in Hq. discriminate.
    + destruct (negb _); discriminate.
Qed.

End SessionLemmas.

Section SessionTurns.

Context `{Toolkit}.

(** Opening always succeeds: the wheel of radius 88 can be rendered. *)
Lemma open_session_ok env init offset g host :
  exists st,
    open_session env init offset g host = Some st
    /\ session_inv init (pixel_req_rect host) st
    /\ pixel_req_rect (s_host st) = Some (get_screen_rect (req_rect env)).
Proof.
  unfold open_session, Gadget.__init__, Gadget.Gadget__init__.
  destruct (get_total Req.radius g) as [[surf g'] Hget]; [unfold Req.radius; lia |].
  rewrite Hget. simpl.
  set (wheel0 := Gadget.mkGadget (wheel_rect env) Req.radius surf true false 0 0
                                 (wheel_rect env) None).
  set (wheel1 := match init with
                 | Some rgb => Gadget.set_value wheel0 (Some rgb)
                 | None => wheel0
                 end).
  set (host1 := mkHost (Some (get_screen_rect (req_rect env))) (calls host)).
  destruct (redraw_frame env offset wheel1 host1) as (Hv & Hr & Hp).
  destruct (redraw env offset wheel1 host1) as [wheel2 host2].
  eexists. split; [reflexivity |]. simpl in *.
  split; [| exact Hp].
  unfold session_inv. simpl. rewrite Hv, Hr.
  repeat split. all: subst wheel1; by destruct init.
Qed.

(** A session that is waiting after [pre] goes on from its state. *)
Lemma colorwheel_req_resume env init offset pre rest g host st :
  colorwheel_req env init offset pre g host = Waiting st ->
  colorwheel_req env init offset (pre ++ rest) g host = event_loop env rest st
  /\ session_inv init (pixel_req_rect host) st.
Proof.
  unfold colorwheel_req.
  destruct (open_session_ok env init offset g host) as (st0 & -> & Hinv & _).
  intros Hw. rewrite event_loop_app, Hw.
  split; [reflexivity |]. by eapply event_loop_waiting_inv.
Qed.

(** If the first [TYPE_GADGETUP] is not the wheel's, the wheel reported
    nothing and is unchanged. *)
Lemma activates_control st i c :
  c <> wheel_gadget ->
  activates st i c ->
  Requestor_process_event (s_wheel st) i = Some (in_controls i, s_wheel st)
  /\ first_gadgetup (in_controls i) = Some c.
Proof.
  intros Hc (gevents & wheel & Hp & Hf).
  destruct (requestor_cases (s_wheel st) i) as [Hq | [Hq | [col Hq]]];
    rewrite Hq in Hp; try discriminate.
  - injection Hp as <- <-. auto.
  - injection Hp as <- <-. simpl in Hf. congruence.
Qed.

(** The turn in which the OK gadget is activated ends the loop with the
    wheel's value, or with [selected] as it was when there is none. *)
Lemma turn_ok env st i rest :
  activates st i ok_g ->
  event_loop env (i :: rest) st
  = finish (next_state env i (s_wheel st)
              (match Gadget.value (s_wheel st) with
               | Some c => Some c
               | None => selected st
               end) st).
Proof.
  intros Hact. apply activates_control in Hact as [Hp Hf]; [| discriminate].
  rewrite (event_loop_cons _ _ _ _ _ _ Hp). cbv zeta.
  by rewrite (scan_ok _ _ _ Hf).
Qed.

(** The turn in which the Cancel gadget is activated ends the loop with
    nothing selected. *)
Lemma turn_cancel env st i rest :
  activates st i cancel_g ->
  event_loop env (i :: rest) st
  = finish (next_state env i (s_wheel st) None st).
Proof.
  intros Hact. apply activates_control in Hact as [Hp Hf]; [| discriminate].
  rewrite (event_loop_cons _ _ _ _ _ _ Hp). cbv zeta.
  by rewrite (scan_cancel _ _ _ Hf).
Qed.

(** The turn in which the wheel accepts a click ends the loop with the
    colour of the click. *)
Lemma turn_click env st i rest c :
  Gadget.process_event (s_wheel st) (in_event i) (in_mouse i)
  = Some ([mkGadgetEvent TYPE_GADGETUP (in_event i) wheel_gadget],
          Gadget.set_value (s_wheel st) (Some c)) ->
  event_loop env (i :: rest) st
  = finish (next_state env i (Gadget.set_value (s_wheel st) (Some c))
              (Some c) st).
Proof.
  intros Hp.
  assert (Hq : Requestor_process_event (s_wheel st) i
               = Some (mkGadgetEvent TYPE_GADGETUP (in_event i) wheel_gadget
                         :: in_controls i,
                       Gadget.set_value (s_wheel st) (Some c)))
    by (unfold Requestor_process_event; by rewrite Hp).
  by rewrite (event_loop_cons _ _ _ _ _ _ Hq).
Qed.

(** Button releases never reach the wheel's colour computation. *)
Lemma process_event_up self b mouse :
  Gadget.process_event self (MOUSEBUTTONUP b) mouse = Some ([], self).
Proof.
  unfold Gadget.process_event. destruct mouse as [mx my].
  by destruct (negb _).
Qed.

Lemma event_loop_waiting_prr env inputs st st' :
  event_loop env inputs st = Waiting st' ->
  pixel_req_rect (s_host st') = pixel_req_rect (s_host st).
Proof.
  revert st. induction inputs as [| i inputs IH]; intros st.
  - simpl. by intros [= <-].
  - destruct (Requestor_process_event (s_wheel st) i) as [[gevents wheel] |]
      eqn:Hp; [| simpl; rewrite Hp; discriminate].
    rewrite (event_loop_cons _ _ _ _ _ _ Hp). cbv zeta.
    destruct (scan_gevents _ _ _) as [sel [|]]; simpl; [| discriminate].
    intros Hl. apply IH in Hl. rewrite Hl. unfold next_state. simpl.
    apply redraw_frame.
Qed.

End SessionTurns.

(* ===================================================================== *)
(** ** Drawing the wheel on a pixel screen *)
(* ===================================================================== *)

Section DrawLemmas.

(** The pixels of the rendered buffer. *)
Lemma generate_pixel radius surf x y :
  0 < radius ->
  _generate_wheel_surface radius = Some surf ->
  0 <= x < radius * 2 -> 0 <= y < radius * 2 ->
  get_at surf (x, y) = Some (stored (spec_render_pixel radius x y)).
Proof.
  intros Hr Hgen Hx Hy. rewrite generate_paint in Hgen by exact Hr.
  injection Hgen as <-.
  apply (get_at_paint_hit (fun p => p)
           (fun p => stored (spec_render_pixel radius p.1 p.2))).
  - apply in_surface_spec. simpl. lia.
  - by intros p _ ->.
  - left. exists (x, y). split; [| reflexivity].
    apply elem_of_rect_points. simpl. lia.
Qed.

Lemma generate_dims radius surf :
  0 < radius ->
  _generate_wheel_surface radius = Some surf ->
  surf_w surf = radius * 2 /\ surf_h surf = radius * 2.
Proof.
  intros Hr Hgen. rewrite generate_paint in Hgen by exact Hr.
  injection Hgen as <-. apply paint_dims.
Qed.

(** The corners of the buffer are outside the wheel. *)
Lemma corner_outside radius :
  0 < radius -> spec_render_pixel radius 0 0 = OutOfWheel.
Proof.
  intros Hr. unfold spec_render_pixel.
  destruct (Rgt_dec _ _) as [_ | Hn]; [reflexivity |].
  exfalso. apply Hn.
  apply (hypot_gt_iff (0 - radius) (0 - radius) radius); nia.
Qed.

(** [blit] copies every pixel of the source, whatever was underneath. *)
Lemma surface_blit_pixel src x0 y0 w0 h0 s p :
  in_surface src p = true ->
  in_surface s (x0 + p.1, y0 + p.2) = true ->
  get_at (surface_blit src (x0, y0, w0, h0) s) (x0 + p.1, y0 + p.2)
  = Some (pixel src p).
Proof.
  intros Hp Hq. unfold surface_blit.
  apply get_at_paint_hit; [exact Hq | |].
  - intros [px py] _ Heq. destruct p as [qx qy]. simpl in *.
    injection Heq as Hx Hy.
    replace px with qx by lia. by replace py with qy by lia.
  - left. exists p. split; [| reflexivity].
    apply in_surface_spec in Hp. destruct p as [px py].
    apply elem_of_rect_points. simpl in *. lia.
Qed.

(** A gadget that needs a redraw ends [draw] with the whole buffer on the
    screen, centred in its rectangle. *)
Lemma draw_pixel self (screen : Surface) xo yo bg x y w h p :
  Gadget.need_redraw self = true ->
  Gadget.rect self = (x, y, w, h) ->
  in_surface (Gadget._wheel_surf self) p = true ->
  let q := (x + xo + w / 2 - surf_w (Gadget._wheel_surf self) / 2 + p.1,
            y + yo + h / 2 - surf_h (Gadget._wheel_surf self) / 2 + p.2) in
  in_surface screen q = true ->
  get_at (Gadget.draw self screen (xo, yo) bg).2 q
  = Some (pixel (Gadget._wheel_surf self) p).
Proof.
  intros Hnr Hrect Hp q Hq. unfold Gadget.draw, Gadget.place.
  rewrite Hrect. simpl. rewrite Hnr. simpl.
  unfold get_rect_center. simpl.
  apply (surface_blit_pixel _ _ _ (surf_w (Gadget._wheel_surf self))
           (surf_h (Gadget._wheel_surf self))); [exact Hp |].
  unfold surface_fill. by rewrite in_surface_paint.
Qed.

End DrawLemmas.

Section Placement.

Context `{Toolkit}.

Lemma redraw_screenrect env xo yo wheel host x y w h :
  Gadget.rect wheel = (x, y, w, h) ->
  Gadget.screenrect (redraw env (xo, yo) wheel host).1 = (x + xo, y + yo, w, h)
  /\ Gadget.rect (redraw env (xo, yo) wheel host).1 = (x, y, w, h).
Proof.
  intros Hrect. unfold redraw, Requestor_draw, Gadget.draw, Gadget.place.
  rewrite Hrect. simpl. destruct (negb (Gadget.need_redraw wheel)); simpl; auto.
Qed.

(** Where the wheel is when the session starts waiting. *)
Lemma open_session_placed env init xo yo g host st :
  open_session env init (xo, yo) g host = Some st ->
  Gadget.screenrect (s_wheel st)
  = (8 + xo, 8 + fonty env + yo, wheel_size, wheel_size).
Proof.
  unfold open_session, Gadget.__init__, Gadget.Gadget__init__.
  destruct (_get_wheel_surface Req.radius g) as [[surf g'] |]; [| discriminate].
  simpl.
  set (wheel1 := match init with Some _ => _ | None => _ end).
  assert (Hrect : Gadget.rect wheel1 = (8, 8 + fonty env, wheel_size, wheel_size))
    by (subst wheel1; by destruct init).
  destruct (redraw_screenrect env xo yo wheel1
              (mkHost (Some (get_screen_rect (req_rect env))) (calls host))
              _ _ _ _ Hrect) as [Hs _].
  destruct (redraw _ _ _ _) as [wheel2 host2]. simpl in Hs.
  by intros [= <-].
Qed.

Lemma colorwheel_req_opened env init offset g host :
  exists st,
    colorwheel_req env init offset [] g host = Waiting st
    /\ open_session env init offset g host = Some st.
Proof.
  unfold colorwheel_req.
  destruct (open_session_ok env init offset g host) as (st & -> & _).
  by exists st.
Qed.

(** Confirming ends the session with the colour the wheel was seeded
    with, if any. *)
Lemma confirm_returns env init offset pre g host st i rest :
  colorwheel_req env init offset pre g host = Waiting st ->
  activates st i ok_g ->
  exists host' g',
    colorwheel_req env init offset (pre ++ i :: rest) g host
    = Returned init host' g'.
Proof.
  intros Hw Hact.
  destruct (colorwheel_req_resume _ _ _ _ (i :: rest) _ _ _ Hw)
    as [-> (_ & Hv & _ & Hs)].
  rewrite (turn_ok _ _ _ _ Hact). unfold finish, next_state. simpl.
  rewrite Hv, Hs. destruct init; eauto.
Qed.

(** Cancelling ends the session with nothing selected. *)
Lemma cancel_returns env init offset pre g host st i rest :
  colorwheel_req env init offset pre g host = Waiting st ->
  activates st i cancel_g ->
  exists host' g',
    colorwheel_req env init offset (pre ++ i :: rest) g host
    = Returned None host' g'.
Proof.
  intros Hw Hact.
  destruct (colorwheel_req_resume _ _ _ _ (i :: rest) _ _ _ Hw) as [-> _].
  rewrite (turn_cancel _ _ _ _ Hact). unfold finish. eauto.
Qed.

(** A control whose notification is the only one activates. *)
Lemma release_activates st b mouse offset c :
  activates st (mkInput (MOUSEBUTTONUP b) mouse
                        [mkGadgetEvent TYPE_GADGETUP (MOUSEBUTTONUP b) c] offset) c.
Proof.
  eexists _, _. unfold Requestor_process_event.
  cbn [in_event in_mouse in_controls].
  rewrite process_event_up. simpl. split; reflexivity.
Qed.

End Placement.

Section Clicks.

Context `{Toolkit}.

(** A click that the wheel accepts ends the session with its colour. *)
Lemma click_returns env init offset pre g host st i rest x y w h :
  colorwheel_req env init offset pre g host = Waiting st ->
  Gadget.screenrect (s_wheel st) = (x, y, w, h) ->
  in_event i = MOUSEBUTTONDOWN 1 ->
  pointin (in_mouse i) (x, y, w, h) = true ->
  ~ (Py.hypot (IZR ((in_mouse i).1 - (x + w / 2)))
              (IZR ((in_mouse i).2 - (y + h / 2))) > IZR Req.radius)%R ->
  exists c,
    spec_render_pixel Req.radius
      ((in_mouse i).1 - (x + w / 2) + Req.radius)
      ((in_mouse i).2 - (y + h / 2) + Req.radius) = InWheel c
    /\ Gadget.process_event (s_wheel st) (in_event i) (in_mouse i)
       = Some ([mkGadgetEvent TYPE_GADGETUP (in_event i) wheel_gadget],
               Gadget.set_value (s_wheel st) (Some c))
    /\ exists host' g',
         colorwheel_req env init offset (pre ++ i :: rest) g host
         = Returned (Some c) host' g'.
Proof.
  intros Hw Hrect Hev Hin Hle.
  destruct (colorwheel_req_resume _ _ _ _ (i :: rest) _ _ _ Hw)
    as [-> (Hr & _)].
  destruct (in_mouse i) as [mx my] eqn:Hm. cbn [fst snd] in *.
  destruct (process_event_click (s_wheel st) mx my x y w h) as (c & Hc & Hp).
  - rewrite Hr. discriminate.
  - exact Hrect.
  - by rewrite Hrect.
  - by rewrite Hr.
  - rewrite Hr in Hc. exists c. split; [| split].
    + by apply hsv_pixel_render.
    + by rewrite Hev.
    + rewrite <- Hev, <- Hm in Hp. rewrite (turn_click _ _ _ _ _ Hp).
      unfold finish. eauto.
Qed.

End Clicks.

Section FillLemmas.

(** [fill] gives every pixel of the rectangle the colour. *)
Lemma surface_fill_pixel c x y w h s q :
  in_surface s q = true ->
  x <= q.1 < x + w -> y <= q.2 < y + h ->
  get_at (surface_fill c (x, y, w, h) s) q = Some c.
Proof.
  intros Hq Hx Hy. unfold surface_fill.
  apply (get_at_paint_hit (fun p => p) (fun _ => c)); [exact Hq | done |].
  left. exists q. split; [| reflexivity].
  by apply elem_of_rect_points.
Qed.

End FillLemmas.

(* ===================================================================== *)
(** ** Three colours of the wheel: centre, east rim, west rim *)
(* ===================================================================== *)

Section SampleColours.

Local Open Scope R_scope.

Lemma int_of (z : Z) x : x = IZR z -> Py.int x = z.
Proof. intros ->. apply int_IZR. Qed.

Lemma to_rgb255_of r g b (zr zg zb : Z) :
  r * 255 = IZR zr -> g * 255 = IZR zg -> b * 255 = IZR zb ->
  to_rgb255 (r, g, b) = (zr, zg, zb).
Proof.
  intros Hr Hg Hb. unfold to_rgb255.
  f_equal; [f_equal |]; by apply int_of.
Qed.

Lemma fmod_small x m : 0 <= x < m -> Py.fmod x m = x.
Proof.
  intros [H0 Hm]. unfold Py.fmod.
  rewrite (Zfloor_eq 0 (x / m)); [simpl; lra |].
  simpl. split.
  - apply Rmult_le_pos; [lra |]. left. apply Rinv_0_lt_compat. lra.
  - apply (Rmult_lt_reg_r m); [lra |]. unfold Rdiv.
    rewrite Rmult_assoc, Rinv_l by lra. lra.
Qed.

Lemma hue_east radius : (0 < radius)%Z -> hue_of radius 0 = 0.
Proof.
  intros Hr. unfold hue_of, Py.atan2.
  assert (0 < IZR radius) by (apply IZR_lt; lia).
  destruct (Rlt_dec 0 (IZR radius)); [| lra].
  replace (- 0 / IZR radius) with 0 by (field; lra).
  rewrite atan_0. pose proof PI_RGT_0.
  rewrite fmod_small by lra. field. lra.
Qed.

Lemma hue_west radius : (0 < radius)%Z -> hue_of (- radius) 0 = 1 / 2.
Proof.
  intros Hr. unfold hue_of, Py.atan2. rewrite opp_IZR.
  assert (0 < IZR radius) by (apply IZR_lt; lia).
  destruct (Rlt_dec 0 (- IZR radius)); [lra |].
  destruct (Rlt_dec (- IZR radius) 0); [| lra].
  destruct (Rle_dec 0 (- 0)); [| lra].
  replace (- 0 / - IZR radius) with 0 by (field; lra).
  rewrite atan_0. pose proof PI_RGT_0.
  rewrite fmod_small by lra. field. lra.
Qed.

Lemma hsv_pixel_centre radius :
  (radius <> 0)%Z ->
  hsv_pixel radius 0 0 (Py.hypot (IZR 0) (IZR 0)) = Some (255, 255, 255)%Z.
Proof.
  intros Hr. unfold hsv_pixel, Py.div, Py.hypot.
  destruct (Req_dec_T (IZR radius) 0) as [H0 | Hne];
    [apply eq_IZR in H0; contradiction |].
  replace (0 * 0 + 0 * 0) with 0 by ring. rewrite sqrt_0.
  replace (0 / IZR radius) with 0 by (field; exact Hne).
  rewrite Rmin_right by lra.
  unfold colorsys.hsv_to_rgb. destruct (Req_dec_T 0 0); [| lra].
  f_equal. apply to_rgb255_of; lra.
Qed.

Lemma rgb_eq (r g b r' g' b' : R) :
  r = r' -> g = g' -> b = b' -> (r, g, b) = (r', g', b').
Proof. by intros -> -> ->. Qed.

Lemma hsv_to_rgb_red : colorsys.hsv_to_rgb 0 1 1 = (1, 0, 0).
Proof.
  unfold colorsys.hsv_to_rgb. destruct (Req_dec_T 1 0); [lra |].
  rewrite (int_of 0) by (simpl; lra). simpl.
  apply rgb_eq; lra.
Qed.

Lemma hsv_to_rgb_cyan : colorsys.hsv_to_rgb (1 / 2) 1 1 = (0, 1, 1).
Proof.
  unfold colorsys.hsv_to_rgb. destruct (Req_dec_T 1 0); [lra |].
  rewrite (int_of 3) by (simpl; lra). simpl.
  apply rgb_eq; lra.
Qed.

Lemma hsv_pixel_east radius :
  (0 < radius)%Z ->
  hsv_pixel radius radius 0 (Py.hypot (IZR radius) (IZR 0)) = Some (255, 0, 0)%Z.
Proof.
  intros Hr. assert (0 < IZR radius) by (apply IZR_lt; lia).
  unfold hsv_pixel, Py.div, Py.hypot.
  destruct (Req_dec_T (IZR radius) 0); [lra |].
  rewrite hue_east by exact Hr.
  replace (IZR radius * IZR radius + 0 * 0) with (IZR radius * IZR radius) by ring.
  rewrite sqrt_square by lra.
  replace (IZR radius / IZR radius) with 1 by (field; lra).
  rewrite Rmin_left by lra. rewrite hsv_to_rgb_red.
  f_equal. apply to_rgb255_of; lra.
Qed.

Lemma hsv_pixel_west radius :
  (0 < radius)%Z ->
  hsv_pixel radius (- radius) 0 (Py.hypot (IZR (- radius)) (IZR 0))
  = Some (0, 255, 255)%Z.
Proof.
  intros Hr. assert (0 < IZR radius) by (apply IZR_lt; lia).
  unfold hsv_pixel, Py.div, Py.hypot.
  destruct (Req_dec_T (IZR radius) 0); [lra |].
  rewrite hue_west by exact Hr. rewrite opp_IZR.
  replace (- IZR radius * - IZR radius + 0 * 0) with (IZR radius * IZR radius)
    by ring.
  rewrite sqrt_square by lra.
  replace (IZR radius / IZR radius) with 1 by (field; lra).
  rewrite Rmin_left by lra. rewrite hsv_to_rgb_cyan.
  f_equal. apply to_rgb255_of; lra.
Qed.


End SampleColours.

Section RendererErrors.

(** A negative radius is refused by [pygame.Surface]: nothing is rendered,
    and so nothing is cached. *)
Lemma generate_negative radius :
  radius < 0 -> _generate_wheel_surface radius = None.
Proof.
  intros Hr. unfold _generate_wheel_surface, new_Surface.
  replace (radius * 2 <? 0) with true by (symmetry; apply Z.ltb_lt; lia).
  reflexivity.
Qed.

Lemma get_negative radius g :
  radius < 0 -> _WHEEL_CACHE g !! radius = None ->
  _get_wheel_surface radius g = None
  /\ after_call g radius = mkGlobals (_WHEEL_CACHE g) (S (generate_calls g)).
Proof.
  intros Hr Hc. unfold after_call, _get_wheel_surface.
  by rewrite Hc, generate_negative.
Qed.

End RendererErrors.

(* ===================================================================== *)
(** ** Brightness, and the exact colour of one pixel at radius 5 *)
(* ===================================================================== *)

(** The colour formula gives a colour at full brightness. *)
Lemma hsv_pixel_bright radius dx dy dist c :
  (0 <= dist)%R -> 0 < radius ->
  hsv_pixel radius dx dy dist = Some c -> bright c.
Proof.
  intros Hd Hr. unfold hsv_pixel, Py.div.
  destruct (Req_dec_T (IZR radius) 0) as [? | Hne]; [discriminate |].
  intros [= <-].
  assert (HrR : (0 < IZR radius)%R) by (apply IZR_lt; exact Hr).
  assert (Hs : unit_interval (Rmin 1 (dist / IZR radius))).
  { apply saturation_unit. apply Rmult_le_pos; [exact Hd |].
    left. apply Rinv_0_lt_compat. exact HrR. }
  destruct (hue_range dx dy) as [Hh _].
  pose proof (hsv_to_rgb_unit _ _ Hh Hs) as Hu.
  destruct (colorsys.hsv_to_rgb (hue_of dx dy) (Rmin 1 (dist / IZR radius)) 1)
    as [[r g] b].
  destruct Hu as [_ Hone].
  exact (to_rgb255_one_channel r g b Hone).
Qed.


Section RadiusFive.

Local Open Scope R_scope.



End RadiusFive.

(* ===================================================================== *)
(** ** Properties of the specification *)
(* ===================================================================== *)

Import Scenario.

(** *** The session *)

(** C1, as the code has it: in a session opened with no initial colour in
    which no wheel click has occurred (it is still waiting), activating
    the OK gadget ends the loop: [colorwheel_req] returns [None], so no
    colour is committed, and the session is no longer pending. *)
Theorem C1_confirm_without_selection_returns_none
        `{Toolkit} env offset pre g host st i rest :
  colorwheel_req env None offset pre g host = Waiting st ->
  activates st i ok_g ->
  Gadget.value (s_wheel st) = None
  /\ exists host' g',
       colorwheel_req env None offset (pre ++ i :: rest) g host
       = Returned None host' g'
       /\ ~ pending (colorwheel_req env None offset (pre ++ i :: rest) g host).
Proof.
  intros Hw Hact. split.
  - by destruct (colorwheel_req_resume _ _ _ _ [] _ _ _ Hw) as [_ (_ & Hv & _)].
  - destruct (confirm_returns _ _ _ _ _ _ _ _ rest Hw Hact) as (host' & g' & Hr).
    exists host', g'. split; [exact Hr |]. rewrite Hr. simpl. tauto.
Qed.

Lemma C1_confirm_without_selection_witness :
  exists st,
    colorwheel_req (H := rect_toolkit) env0 None offset0 [] globals0 host0
    = Waiting st
    /\ activates (H := rect_toolkit) st press_ok ok_g
    /\ Gadget.value (s_wheel st) = None
    /\ exists host' g',
         colorwheel_req (H := rect_toolkit) env0 None offset0
                        ([] ++ press_ok :: []) globals0 host0
         = Returned None host' g'
         /\ ~ pending (colorwheel_req (H := rect_toolkit) env0 None offset0
                                      ([] ++ press_ok :: []) globals0 host0).
Proof.
  destruct (colorwheel_req_opened (H := rect_toolkit) env0 None offset0
              globals0 host0) as (st & Hw & _).
  exists st.
  pose proof (release_activates (H := rect_toolkit) st 1 (272, 332) offset0 ok_g)
    as Hact.
  split; [exact Hw |]. split; [exact Hact |].
  exact (C1_confirm_without_selection_returns_none
           (H := rect_toolkit) env0 offset0 [] globals0 host0 st press_ok []
           Hw Hact).
Defined.

(** C1 as stated fails: a session opened with no initial colour whose
    first event is the activation of OK is not pending afterwards. *)
Lemma C1_confirm_without_click_not_pending :
  ~ pending (colorwheel_req (H := rect_toolkit) env0 None offset0 [press_ok]
                            globals0 host0).
Proof.
  destruct (colorwheel_req_opened (H := rect_toolkit) env0 None offset0
              globals0 host0) as (st & Hw & _).
  destruct (confirm_returns (H := rect_toolkit) env0 None offset0 [] globals0 host0
              st press_ok [] Hw
              (release_activates (H := rect_toolkit) st 1 (272, 332) offset0 ok_g))
    as (host' & g' & Hr).
  simpl in Hr. rewrite Hr. simpl. tauto.
Qed.

(** C7: in a session opened with an initial colour, the wheel's value is
    that colour while the session waits, and activating the OK gadget
    (no wheel click in between) makes [colorwheel_req] return it. *)
Theorem C7_confirm_returns_initial_colour
        `{Toolkit} env rgb offset pre g host st i rest :
  colorwheel_req env (Some rgb) offset pre g host = Waiting st ->
  activates st i ok_g ->
  Gadget.value (s_wheel st) = Some rgb
  /\ exists host' g',
       colorwheel_req env (Some rgb) offset (pre ++ i :: rest) g host
       = Returned (Some rgb) host' g'.
Proof.
  intros Hw Hact. split.
  - by destruct (colorwheel_req_resume _ _ _ _ [] _ _ _ Hw) as [_ (_ & Hv & _)].
  - exact (confirm_returns _ _ _ _ _ _ _ _ rest Hw Hact).
Qed.

Lemma C7_confirm_returns_initial_colour_witness :
  exists st,
    colorwheel_req (H := rect_toolkit) env0 (Some (0, 255, 255)) offset0 []
                   globals0 host0 = Waiting st
    /\ activates (H := rect_toolkit) st press_ok ok_g
    /\ Gadget.value (s_wheel st) = Some (0, 255, 255)
    /\ exists host' g',
         colorwheel_req (H := rect_toolkit) env0 (Some (0, 255, 255)) offset0
                        ([] ++ press_ok :: []) globals0 host0
         = Returned (Some (0, 255, 255)) host' g'.
Proof.
  destruct (colorwheel_req_opened (H := rect_toolkit) env0 (Some (0, 255, 255))
              offset0 globals0 host0) as (st & Hw & _).
  exists st.
  pose proof (release_activates (H := rect_toolkit) st 1 (272, 332) offset0 ok_g)
    as Hact.
  split; [exact Hw |]. split; [exact Hact |].
  exact (C7_confirm_returns_initial_colour
           (H := rect_toolkit) env0 (0, 255, 255) offset0 [] globals0 host0 st
           press_ok [] Hw Hact).
Defined.

(** C8: activating the Cancel gadget ends the loop with [selected = None]
    in any state of the session, whatever value the wheel holds; for a
    session that was waiting, [colorwheel_req] returns [None]. *)
Theorem C8_cancel_returns_none
        `{Toolkit} env init offset pre g host st i rest :
  colorwheel_req env init offset pre g host = Waiting st ->
  activates st i cancel_g ->
  (exists host' g',
     colorwheel_req env init offset (pre ++ i :: rest) g host
     = Returned None host' g')
  /\ forall st' : Session,
       activates st' i cancel_g ->
       exists host' g', event_loop env (i :: rest) st' = Returned None host' g'.
Proof.
  intros Hw Hact. split.
  - exact (cancel_returns _ _ _ _ _ _ _ _ rest Hw Hact).
  - intros st' Hact'. rewrite (turn_cancel _ _ _ _ Hact'). unfold finish. eauto.
Qed.

Lemma C8_cancel_returns_none_witness :
  exists st,
    colorwheel_req (H := rect_toolkit) env0 (Some (0, 255, 255)) offset0 []
                   globals0 host0 = Waiting st
    /\ activates (H := rect_toolkit) st press_cancel cancel_g
    /\ (exists host' g',
          colorwheel_req (H := rect_toolkit) env0 (Some (0, 255, 255)) offset0
                         ([] ++ press_cancel :: []) globals0 host0
          = Returned None host' g')
    /\ forall st' : Session,
         activates (H := rect_toolkit) st' press_cancel cancel_g ->
         exists host' g',
           event_loop (H := rect_toolkit) env0 (press_cancel :: []) st'
           = Returned None host' g'.
Proof.
  destruct (colorwheel_req_opened (H := rect_toolkit) env0 (Some (0, 255, 255))
              offset0 globals0 host0) as (st & Hw & _).
  exists st.
  pose proof (release_activates (H := rect_toolkit) st 1 (368, 332) offset0
                cancel_g) as Hact.
  split; [exact Hw |]. split; [exact Hact |].
  exact (C8_cancel_returns_none
           (H := rect_toolkit) env0 (Some (0, 255, 255)) offset0 [] globals0 host0
           st press_cancel [] Hw Hact).
Defined.

(** C9: whenever [colorwheel_req] returns, by a wheel click, by OK or by
    Cancel, [config.pixel_req_rect] is what it was before the call, and
    the last thing the host did is the recompose that follows the
    restore; while the session waits the region is the requestor's. *)
Theorem C9_reserved_region_restored
        `{Toolkit} env init offset inputs g host sel host' g' :
  colorwheel_req env init offset inputs g host = Returned sel host' g' ->
  pixel_req_rect host' = pixel_req_rect host
  /\ (exists t, calls host' = t ++ [Recompose (pixel_req_rect host)])
  /\ forall pre st,
       colorwheel_req env init offset pre g host = Waiting st ->
       pixel_req_rect (s_host st) = Some (get_screen_rect (req_rect env)).
Proof.
  unfold colorwheel_req.
  destruct (open_session_ok env init offset g host)
    as (st0 & -> & (_ & _ & Hb & _) & Hprr).
  intros Hr. apply event_loop_returned in Hr. rewrite Hb in Hr.
  destruct Hr as [Hr Ht]. split; [exact Hr |]. split; [exact Ht |].
  intros pre st Hw. apply event_loop_waiting_prr in Hw. congruence.
Qed.

Lemma C9_reserved_region_restored_witness :
  exists sel host' g',
    colorwheel_req (H := rect_toolkit) env0 None offset0 ([] ++ press_cancel :: [])
                   globals0 host0 = Returned sel host' g'
    /\ pixel_req_rect host' = pixel_req_rect host0
    /\ (exists t, calls host' = t ++ [Recompose (pixel_req_rect host0)])
    /\ forall pre st,
         colorwheel_req (H := rect_toolkit) env0 None offset0 pre globals0 host0
         = Waiting st ->
         pixel_req_rect (s_host st)
         = Some (get_screen_rect (Toolkit := rect_toolkit) (req_rect env0)).
Proof.
  destruct (colorwheel_req_opened (H := rect_toolkit) env0 None offset0
              globals0 host0) as (st & Hw & _).
  destruct (cancel_returns (H := rect_toolkit) env0 None offset0 [] globals0 host0
              st press_cancel [] Hw
              (release_activates (H := rect_toolkit) st 1 (368, 332) offset0
                                 cancel_g))
    as (host' & g' & Hr).
  exists None, host', g'. split; [exact Hr |].
  exact (C9_reserved_region_restored
           (H := rect_toolkit) env0 None offset0 ([] ++ press_cancel :: [])
           globals0 host0 None host' g' Hr).
Defined.

(** *** The gadget *)

(** C3: a primary-button press inside the placement rectangle at a
    distance from the centre equal to the radius is accepted: afterwards
    the gadget's value is a colour and one [TYPE_GADGETUP] is reported; a
    press at a greater distance changes nothing and reports nothing. *)
Theorem C3_hit_test_boundary
        `{Toolkit} self x y w h mx my mx' my' :
  0 < Gadget.radius self ->
  Gadget.screenrect self = (x, y, w, h) ->
  pointin (mx, my) (x, y, w, h) = true ->
  Py.hypot (IZR (mx - (x + w / 2))) (IZR (my - (y + h / 2)))
  = IZR (Gadget.radius self) ->
  (Py.hypot (IZR (mx' - (x + w / 2))) (IZR (my' - (y + h / 2)))
   > IZR (Gadget.radius self))%R ->
  (exists c self',
     Gadget.process_event self (MOUSEBUTTONDOWN 1) (mx, my)
     = Some ([mkGadgetEvent TYPE_GADGETUP (MOUSEBUTTONDOWN 1) wheel_gadget],
             self')
     /\ Gadget.value self' = Some c
     /\ color_ok c)
  /\ Gadget.process_event self (MOUSEBUTTONDOWN 1) (mx', my') = Some ([], self).
Proof.
  intros Hr Hrect Hin Heq Hgt. split.
  - destruct (process_event_click self mx my x y w h) as (c & Hc & Hp);
      [lia | exact Hrect | by rewrite Hrect | lra |].
    exists c, (Gadget.set_value self (Some c)).
    split; [exact Hp |]. split; [reflexivity |].
    eapply hsv_pixel_ok; [apply hypot_nonneg | exact Hr | exact Hc].
  - exact (process_event_outside self mx' my' x y w h Hrect Hgt).
Qed.

Lemma C3_hit_test_boundary_witness :
  (exists c self',
     Gadget.process_event (H := rect_toolkit) placed_wheel (MOUSEBUTTONDOWN 1)
                          (232, 236)
     = Some ([mkGadgetEvent TYPE_GADGETUP (MOUSEBUTTONDOWN 1) wheel_gadget],
             self')
     /\ Gadget.value self' = Some c
     /\ color_ok c)
  /\ Gadget.process_event (H := rect_toolkit) placed_wheel (MOUSEBUTTONDOWN 1)
                          (232, 235)
     = Some ([], placed_wheel).
Proof.
  apply (C3_hit_test_boundary (H := rect_toolkit) placed_wheel 232 148 176 176
           232 236 232 235).
  - reflexivity.
  - reflexivity.
  - reflexivity.
  - apply hypot_eq_iff; [simpl; lia | reflexivity].
  - apply hypot_gt_iff; [simpl; lia | reflexivity].
Defined.



(** *** The renderer and its cache *)




(** C10: every pixel of a rendered buffer, and every value that
    [process_event] gives the wheel, is a triple of integers between 0
    and 255. *)
Theorem C10_colours_are_8_bit `{Toolkit} :
  (forall radius surf p c,
     _generate_wheel_surface radius = Some surf ->
     get_at surf p = Some c ->
     color_ok c)
  /\ (forall self event mouse ge self',
        Gadget.process_event self event mouse = Some (ge, self') ->
        Gadget.value self' = Gadget.value self
        \/ exists c, Gadget.value self' = Some c /\ color_ok c).
Proof.
  split.
  - intros radius surf [x y] c Hgen Hget.
    destruct (Z_lt_le_dec 0 radius) as [Hr | Hr].
    + destruct (generate_dims radius surf Hr Hgen) as [Hw Hh].
      assert (Hin : in_surface surf (x, y) = true)
        by (unfold get_at in Hget; destruct (in_surface surf (x, y)); congruence).
      apply in_surface_spec in Hin. simpl in Hin.
      rewrite (generate_pixel radius surf x y Hr Hgen) in Hget by lia.
      injection Hget as <-.
      destruct (spec_render_pixel radius x y) as [| c] eqn:Hpx; simpl.
      * unfold channel_ok. lia.
      * by apply (spec_render_pixel_ok radius x y c Hr).
    + exfalso. unfold _generate_wheel_surface, new_Surface in Hgen.
      destruct ((radius * 2 <? 0) || (radius * 2 <? 0)) eqn:Hneg;
        [discriminate |].
      apply orb_false_iff in Hneg as [Hneg _]. apply Z.ltb_ge in Hneg.
      assert (radius = 0) as -> by lia.
      simpl in Hgen. injection Hgen as <-.
      unfold get_at in Hget.
      destruct (in_surface _ _) eqn:Hin; [| discriminate].
      apply in_surface_spec in Hin. simpl in Hin. lia.
  - intros self event mouse ge self' Hp.
    destruct (process_event_cases self event mouse)
      as [Hq | [Hq | (c & x & y & w & h & _ & _ & _ & Hc & Hle & Hq)]];
      rewrite Hq in Hp; try discriminate.
    + injection Hp as _ <-. by left.
    + injection Hp as _ <-. right. exists c. split; [reflexivity |].
      assert (Hr : 0 < Gadget.radius self).
      { destruct (Z_lt_le_dec 0 (Gadget.radius self)) as [Hr | Hr]; [exact Hr |].
        destruct (Z.eq_dec (Gadget.radius self) 0) as [H0 | Hne].
        - unfold hsv_pixel, Py.div in Hc. rewrite H0 in Hc.
          destruct (Req_dec_T 0 0); [discriminate | congruence].
        - exfalso. apply Hle.
          apply Rlt_gt, Rlt_le_trans with 0%R;
            [apply IZR_lt; lia | apply hypot_nonneg]. }
      eapply hsv_pixel_ok; [apply hypot_nonneg | exact Hr | exact Hc].
Qed.

Lemma C10_colours_are_8_bit_witness :
  (exists surf c,
     _generate_wheel_surface 88 = Some surf
     /\ get_at surf (0, 0) = Some c /\ color_ok c)
  /\ (exists ge self',
        Gadget.process_event (H := rect_toolkit) placed_wheel
                             (MOUSEBUTTONDOWN 1) (232, 236) = Some (ge, self')
        /\ (Gadget.value self' = Gadget.value placed_wheel
            \/ exists c, Gadget.value self' = Some c /\ color_ok c)).
Proof.
  pose proof (C10_colours_are_8_bit (H := rect_toolkit)) as [Hrender Hclick].
  split.
  - destruct (generate_total 88) as [surf Hgen]; [lia |].
    pose proof (generate_pixel 88 surf 0 0 ltac:(lia) Hgen ltac:(lia) ltac:(lia))
      as Hget.
    exists surf, (stored (spec_render_pixel 88 0 0)).
    split; [exact Hgen |]. split; [exact Hget |].
    exact (Hrender 88 surf (0, 0) _ Hgen Hget).
  - destruct (process_event_click (H := rect_toolkit) placed_wheel 232 236
                232 148 176 176) as (c & _ & Hp).
    + discriminate.
    + reflexivity.
    + reflexivity.
    + intros Hgt. apply hypot_gt_iff in Hgt; [| simpl; lia].
      vm_compute in Hgt. discriminate.
    + eexists _, _. split; [exact Hp |]. exact (Hclick _ _ _ _ _ Hp).
Defined.

(** C6: for a radius the renderer accepts, a first call of
    [_get_wheel_surface] returns a buffer after at most one rendering; a
    second call returns the same buffer and leaves the module state as it
    is, so nothing is rendered again; and no later call, for any radius,
    removes the entry. *)
Theorem C6_cache_renders_once radius g :
  0 <= radius ->
  exists surf g1,
    _get_wheel_surface radius g = Some (surf, g1)
    /\ (generate_calls g1 <= S (generate_calls g))%nat
    /\ _get_wheel_surface radius g1 = Some (surf, g1)
    /\ forall radii,
         _WHEEL_CACHE (after_calls g1 radii) !! radius = Some surf.
Proof.
  intros Hr. destruct (get_total radius g Hr) as [[surf g1] Hget].
  exists surf, g1. split; [exact Hget |].
  pose proof (get_stores _ _ _ _ Hget) as Hstored.
  split; [| split].
  - unfold _get_wheel_surface in Hget.
    destruct (_WHEEL_CACHE g !! radius).
    + injection Hget as _ <-. lia.
    + destruct (_generate_wheel_surface radius); [| discriminate].
      simpl in Hget. injection Hget as _ <-. simpl. lia.
  - by apply get_cached.
  - intros radii. by apply after_calls_keep.
Qed.

Lemma C6_cache_renders_once_witness :
  exists surf g1,
    _get_wheel_surface 88 globals0 = Some (surf, g1)
    /\ (generate_calls g1 <= S (generate_calls globals0))%nat
    /\ _get_wheel_surface 88 g1 = Some (surf, g1)
    /\ forall radii,
         _WHEEL_CACHE (after_calls g1 radii) !! 88 = Some surf.
Proof. apply (C6_cache_renders_once 88 globals0). lia. Defined.

(** *** Drawing *)

(** C4, evaluated on the code: the wheel of the requestor is drawn on a
    blank 640x480 screen with the panel colour (160, 160, 160).  The top
    left pixel of the buffer is outside the circle and holds the mark,
    black; [fill] gives the screen pixel under it the panel colour, and
    after [draw] that screen pixel is black: the buffer is blitted whole,
    the panel colour does not show through. *)
Theorem C4_corner_hides_panel_colour :
  exists wheel g1,
    Gadget.__init__ (8, 16, 176, 176) 88 globals0 = Some (wheel, g1)
    /\ get_at (Gadget._wheel_surf wheel) (0, 0) = Some BLACK
    /\ get_at (surface_fill (160, 160, 160) (232, 148, 176, 176) screen0)
              (232, 148) = Some (160, 160, 160)
    /\ get_at (Gadget.draw wheel screen0 offset0 (160, 160, 160)).2 (232, 148)
       = Some BLACK
    /\ BLACK <> (160, 160, 160).
Proof.
  destruct (generate_total 88) as [surf Hgen]; [lia |].
  destruct (generate_dims 88 surf ltac:(lia) Hgen) as [Hw Hh].
  pose proof (generate_pixel 88 surf 0 0 ltac:(lia) Hgen ltac:(lia) ltac:(lia))
    as Hpx.
  rewrite corner_outside in Hpx by lia. simpl in Hpx.
  assert (Hin : in_surface surf (0, 0) = true)
    by (apply in_surface_spec; simpl; lia).
  assert (Hblack : pixel surf (0, 0) = BLACK)
    by (unfold get_at in Hpx; rewrite Hin in Hpx; congruence).
  set (wheel := Gadget.mkGadget (8, 16, 176, 176) 88 surf true false 0 0
                                (8, 16, 176, 176) None).
  exists wheel, (mkGlobals (<[88 := surf]> ∅) 1).
  split; [| split; [exact Hpx | split; [| split]]].
  - unfold Gadget.__init__, Gadget.Gadget__init__.
    by rewrite (get_fresh 88 globals0 surf (lookup_empty _) Hgen).
  - by apply surface_fill_pixel.
  - pose proof (draw_pixel wheel screen0 224 132 (160, 160, 160)
                  8 16 176 176 (0, 0) eq_refl eq_refl Hin) as Hdraw.
    cbn [Gadget._wheel_surf wheel fst snd] in Hdraw.
    rewrite Hw, Hh, Hblack in Hdraw. by apply Hdraw.
  - discriminate.
Qed.

(** *** The scenarios of the specification, run on the code *)

(** A press on the west rim of the wheel (angle π, hue 0.5) makes the
    session return cyan. *)
Example west_rim_click_returns_cyan :
  exists host' g',
    colorwheel_req (H := rect_toolkit) env0 None offset0 [click_west]
                   globals0 host0
    = Returned (Some (0, 255, 255)) host' g'.
Proof.
  destruct (colorwheel_req_opened (H := rect_toolkit) env0 None offset0
              globals0 host0) as (st & Hw & Hopen).
  pose proof (open_session_placed (H := rect_toolkit) env0 None 224 132
                globals0 host0 st Hopen) as Hrect.
  change (Gadget.screenrect (s_wheel st) = (232, 148, 176, 176)) in Hrect.
  destruct (click_returns (H := rect_toolkit) env0 None offset0 [] globals0 host0
              st click_west [] 232 148 176 176 Hw Hrect eq_refl eq_refl)
    as (c & Hc & _ & Hret).
  - intros Hgt. apply hypot_gt_iff in Hgt; [| unfold Req.radius; lia].
    vm_compute in Hgt. discriminate.
  - assert (Hcyan : spec_render_pixel 88 (- 88 + 88) (0 + 88)
                    = InWheel (0, 255, 255)).
    { apply hsv_pixel_render; [| apply (hsv_pixel_west 88); lia].
      intros Hgt. apply hypot_gt_iff in Hgt; [| lia].
      vm_compute in Hgt. discriminate. }
    change (spec_render_pixel 88 0 88 = InWheel c) in Hc.
    change (spec_render_pixel 88 0 88 = InWheel (0, 255, 255)) in Hcyan.
    rewrite Hcyan in Hc. injection Hc as <-. exact Hret.
Qed.

(** A press on the centre of the wheel gives it the value white. *)
Example centre_click_is_white :
  Gadget.process_event (H := rect_toolkit) placed_wheel (MOUSEBUTTONDOWN 1)
                       (320, 236)
  = Some ([mkGadgetEvent TYPE_GADGETUP (MOUSEBUTTONDOWN 1) wheel_gadget],
          Gadget.set_value placed_wheel (Some (255, 255, 255))).
Proof.
  destruct (process_event_click (H := rect_toolkit) placed_wheel 320 236
              232 148 176 176) as (c & Hc & Hp);
    [discriminate | reflexivity | reflexivity | |].
  - intros Hgt. apply hypot_gt_iff in Hgt; [| simpl; lia].
    vm_compute in Hgt. discriminate.
  - change (hsv_pixel 88 0 0 (Py.hypot (IZR 0) (IZR 0)) = Some c) in Hc.
    rewrite hsv_pixel_centre in Hc by discriminate.
    injection Hc as <-. exact Hp.
Qed.

(** A press on the east rim of the wheel (angle 0, hue 0) gives it the
    value red. *)
Example east_rim_click_is_red :
  Gadget.process_event (H := rect_toolkit) placed_wheel (MOUSEBUTTONDOWN 1)
                       (408, 236)
  = Some ([mkGadgetEvent TYPE_GADGETUP (MOUSEBUTTONDOWN 1) wheel_gadget],
          Gadget.set_value placed_wheel (Some (255, 0, 0))).
Proof.
  destruct (process_event_click (H := rect_toolkit) placed_wheel 408 236
              232 148 176 176) as (c & Hc & Hp);
    [discriminate | reflexivity | reflexivity | |].
  - intros Hgt. apply hypot_gt_iff in Hgt; [| simpl; lia].
    vm_compute in Hgt. discriminate.
  - change (hsv_pixel 88 88 0 (Py.hypot (IZR 88) (IZR 0)) = Some c) in Hc.
    rewrite hsv_pixel_east in Hc by lia.
    injection Hc as <-. exact Hp.
Qed.

(* ===================================================================== *)
(** ** Further properties of the code *)
(* ===================================================================== *)

(** *** ColorWheelGadget.process_event *)

Section ProcessEventLemmas.

Context `{Toolkit}.

Lemma process_event_not_primary self event mouse :
  event <> MOUSEBUTTONDOWN 1 ->
  Gadget.process_event self event mouse = Some ([], self).
Proof.
  intros Hev. unfold Gadget.process_event. destruct mouse as [mx my].
  destruct event as [b | b |]; [| by destruct (negb _) | reflexivity].
  destruct (negb _); [reflexivity |].
  destruct b as [| [p | p |] | p]; try reflexivity. congruence.
Qed.

Lemma process_event_not_pointin self event mouse :
  pointin mouse (Gadget.screenrect self) = false ->
  Gadget.process_event self event mouse = Some ([], self).
Proof.
  intros Hin. unfold Gadget.process_event. destruct mouse as [mx my].
  rewrite Hin. by destruct event.
Qed.

End ProcessEventLemmas.

(** X1: [process_event] reacts to nothing but a press of the primary
    button inside the placement rectangle: any other event, and any event
    while the pointer is outside the rectangle, returns the empty list
    and leaves the gadget as it is. *)
Theorem X1_process_event_guards `{Toolkit} self event mouse :
  event <> MOUSEBUTTONDOWN 1
  \/ pointin mouse (Gadget.screenrect self) = false ->
  Gadget.process_event self event mouse = Some ([], self).
Proof.
  intros [Hev | Hin].
  - by apply process_event_not_primary.
  - by apply process_event_not_pointin.
Qed.

Lemma X1_process_event_guards_witness :
  Gadget.process_event (H := rect_toolkit) placed_wheel (MOUSEBUTTONDOWN 3)
                       (320, 236) = Some ([], placed_wheel)
  /\ Gadget.process_event (H := rect_toolkit) placed_wheel (MOUSEBUTTONDOWN 1)
                          (10, 10) = Some ([], placed_wheel).
Proof.
  split.
  - apply (X1_process_event_guards (H := rect_toolkit) placed_wheel
             (MOUSEBUTTONDOWN 3) (320, 236)).
    left. discriminate.
  - apply (X1_process_event_guards (H := rect_toolkit) placed_wheel
             (MOUSEBUTTONDOWN 1) (10, 10)).
    right. reflexivity.
Defined.

(** X2: whenever [process_event] returns, either it reports nothing and
    the gadget is unchanged, or the event is a primary-button press, the
    report is exactly one [TYPE_GADGETUP] of the wheel carrying that
    event, the gadget's value is now an 8-bit colour at full brightness
    (one channel is 255), and every other attribute of the gadget is as
    it was. *)
Theorem X2_process_event_outcomes `{Toolkit} self event mouse ge self' :
  Gadget.process_event self event mouse = Some (ge, self') ->
  (ge = [] /\ self' = self)
  \/ exists c,
       event = MOUSEBUTTONDOWN 1
       /\ ge = [mkGadgetEvent TYPE_GADGETUP event wheel_gadget]
       /\ Gadget.value self' = Some c
       /\ color_ok c /\ bright c
       /\ Gadget.rect self' = Gadget.rect self
       /\ Gadget.radius self' = Gadget.radius self
       /\ Gadget._wheel_surf self' = Gadget._wheel_surf self
       /\ Gadget.need_redraw self' = Gadget.need_redraw self
       /\ Gadget.visible self' = Gadget.visible self
       /\ Gadget.offsetx self' = Gadget.offsetx self
       /\ Gadget.offsety self' = Gadget.offsety self
       /\ Gadget.screenrect self' = Gadget.screenrect self.
Proof.
  intros Hp.
  destruct (process_event_cases self event mouse)
    as [Hq | [Hq | (c & x & y & w & h & Hev & _ & _ & Hc & Hle & Hq)]];
    rewrite Hq in Hp; try discriminate.
  - injection Hp as <- <-. by left.
  - injection Hp as <- <-. right. exists c.
    assert (Hr : 0 < Gadget.radius self).
    { destruct (Z_lt_le_dec 0 (Gadget.radius self)) as [Hr | Hr]; [exact Hr |].
      destruct (Z.eq_dec (Gadget.radius self) 0) as [H0 | Hne].
      - unfold hsv_pixel, Py.div in Hc. rewrite H0 in Hc.
        destruct (Req_dec_T 0 0); [discriminate | congruence].
      - exfalso. apply Hle.
        apply Rlt_gt, Rlt_le_trans with 0%R;
          [apply IZR_lt; lia | apply hypot_nonneg]. }
    split; [exact Hev |]. split; [reflexivity |]. split; [reflexivity |].
    split; [eapply hsv_pixel_ok; [apply hypot_nonneg | exact Hr | exact Hc] |].
    split; [eapply hsv_pixel_bright; [apply hypot_nonneg | exact Hr | exact Hc] |].
    by repeat split.
Qed.

Lemma X2_process_event_outcomes_witness :
  ([mkGadgetEvent TYPE_GADGETUP (MOUSEBUTTONDOWN 1) wheel_gadget] = []
   /\ Gadget.set_value placed_wheel (Some (255, 255, 255)) = placed_wheel)
  \/ exists c,
       MOUSEBUTTONDOWN 1 = MOUSEBUTTONDOWN 1
       /\ [mkGadgetEvent TYPE_GADGETUP (MOUSEBUTTONDOWN 1) wheel_gadget]
          = [mkGadgetEvent TYPE_GADGETUP (MOUSEBUTTONDOWN 1) wheel_gadget]
       /\ Gadget.value (Gadget.set_value placed_wheel (Some (255, 255, 255)))
          = Some c
       /\ color_ok c /\ bright c
       /\ Gadget.rect (Gadget.set_value placed_wheel (Some (255, 255, 255)))
          = Gadget.rect placed_wheel
       /\ Gadget.radius (Gadget.set_value placed_wheel (Some (255, 255, 255)))
          = Gadget.radius placed_wheel
       /\ Gadget._wheel_surf
            (Gadget.set_value placed_wheel (Some (255, 255, 255)))
          = Gadget._wheel_surf placed_wheel
       /\ Gadget.need_redraw
            (Gadget.set_value placed_wheel (Some (255, 255, 255)))
          = Gadget.need_redraw placed_wheel
       /\ Gadget.visible (Gadget.set_value placed_wheel (Some (255, 255, 255)))
          = Gadget.visible placed_wheel
       /\ Gadget.offsetx (Gadget.set_value placed_wheel (Some (255, 255, 255)))
          = Gadget.offsetx placed_wheel
       /\ Gadget.offsety (Gadget.set_value placed_wheel (Some (255, 255, 255)))
          = Gadget.offsety placed_wheel
       /\ Gadget.screenrect
            (Gadget.set_value placed_wheel (Some (255, 255, 255)))
          = Gadget.screenrect placed_wheel.
Proof.
  apply (X2_process_event_outcomes (H := rect_toolkit) placed_wheel
           (MOUSEBUTTONDOWN 1) (320, 236)).
  exact centre_click_is_white.
Defined.

(** X3: the radius is not validated.  With radius 0 a primary-button
    press on the centre of the rectangle raises ([dist / radius] divides
    by zero); with a negative radius every event is ignored, since no
    distance is below the radius. *)
Theorem X3_process_event_degenerate_radius `{Toolkit} self x y w h :
  Gadget.screenrect self = (x, y, w, h) ->
  (Gadget.radius self = 0 ->
   pointin (x + w / 2, y + h / 2) (x, y, w, h) = true ->
   Gadget.process_event self (MOUSEBUTTONDOWN 1) (x + w / 2, y + h / 2) = None)
  /\ (Gadget.radius self < 0 ->
      forall event mouse,
        Gadget.process_event self event mouse = Some ([], self)).
Proof.
  intros Hrect. split.
  - intros H0 Hin. unfold Gadget.process_event.
    rewrite Hrect, Hin. simpl. rewrite H0.
    replace (x + w / 2 - (x + w / 2)) with 0 by lia.
    replace (y + h / 2 - (y + h / 2)) with 0 by lia.
    destruct (Rgt_dec _ _) as [Hgt | _].
    + exfalso. apply (hypot_gt_iff 0 0 0) in Hgt; lia.
    + unfold hsv_pixel, Py.div. by destruct (Req_dec_T 0 0).
  - intros Hneg event [mx my].
    destruct (decide (event = MOUSEBUTTONDOWN 1)) as [-> | Hne];
      [| by apply process_event_not_primary].
    apply (process_event_outside self mx my x y w h Hrect).
    apply Rlt_gt, Rlt_le_trans with 0%R; [apply IZR_lt; lia | apply hypot_nonneg].
Qed.

Lemma X3_process_event_degenerate_radius_witness :
  Gadget.process_event (H := rect_toolkit) (wheel_of_radius 0)
                       (MOUSEBUTTONDOWN 1) (320, 236) = None
  /\ forall event mouse,
       Gadget.process_event (H := rect_toolkit) (wheel_of_radius (-5)) event mouse
       = Some ([], wheel_of_radius (-5)).
Proof.
  split.
  - destruct (X3_process_event_degenerate_radius (H := rect_toolkit)
                (wheel_of_radius 0) 232 148 176 176 eq_refl) as [Hzero _].
    apply Hzero; reflexivity.
  - destruct (X3_process_event_degenerate_radius (H := rect_toolkit)
                (wheel_of_radius (-5)) 232 148 176 176 eq_refl) as [_ Hneg].
    apply Hneg. reflexivity.
Defined.

(** *** ColorWheelGadget.draw *)

Section DrawAttributes.

Context {S : Type} `{Canvas S}.

Lemma draw_need_redraw self (screen : S) offset bg :
  Gadget.need_redraw (Gadget.draw self screen offset bg).1 = false.
Proof.
  unfold Gadget.draw, Gadget.place.
  destruct (Gadget.rect self) as [[[x y] w] h], offset as [xo yo]. simpl.
  by destruct (Gadget.need_redraw self).
Qed.

Lemma draw_clean self (screen : S) offset bg :
  Gadget.need_redraw self = false ->
  (Gadget.draw self screen offset bg).2 = screen.
Proof.
  intros Hnr. unfold Gadget.draw, Gadget.place.
  destruct (Gadget.rect self) as [[[x y] w] h], offset as [xo yo]. simpl.
  by rewrite Hnr.
Qed.

Lemma draw_attributes self (screen : S) offset bg :
  let self' := (Gadget.draw self screen offset bg).1 in
  Gadget.rect self' = Gadget.rect self
  /\ Gadget.radius self' = Gadget.radius self
  /\ Gadget._wheel_surf self' = Gadget._wheel_surf self
  /\ Gadget.value self' = Gadget.value self
  /\ Gadget.visible self' = true
  /\ Gadget.offsetx self' = offset.1
  /\ Gadget.offsety self' = offset.2
  /\ Gadget.screenrect self' = moved (Gadget.rect self) offset.
Proof.
  unfold Gadget.draw, Gadget.place, moved.
  destruct (Gadget.rect self) as [[[x y] w] h] eqn:Hrect, offset as [xo yo].
  simpl. destruct (Gadget.need_redraw self); simpl; by rewrite ?Hrect.
Qed.

End DrawAttributes.

(** X4: the wheel is painted once.  After any [draw] the gadget no longer
    needs a redraw, so a later [draw], on any screen and at any offset,
    leaves that screen exactly as it was. *)
Theorem X4_draw_paints_once {S : Type} `{Canvas S}
        self (screen screen' : S) offset offset' bg bg' :
  let self' := (Gadget.draw self screen offset bg).1 in
  Gadget.need_redraw self' = false
  /\ (Gadget.draw self' screen' offset' bg').2 = screen'.
Proof.
  intros self'. pose proof (draw_need_redraw self screen offset bg) as Hnr.
  split; [exact Hnr |]. by apply draw_clean.
Qed.

Section DrawPixels.

Lemma in_rect_spec x y w h p :
  in_rect (x, y, w, h) p = true <-> x <= p.1 < x + w /\ y <= p.2 < y + h.
Proof. unfold in_rect. rewrite !andb_true_iff. lia. Qed.

Lemma in_rect_points r p : p ∈ rect_points r <-> in_rect r p = true.
Proof.
  destruct r as [[[x y] w] h]. rewrite elem_of_rect_points, in_rect_spec. tauto.
Qed.

Lemma get_at_in_surface s q :
  in_surface s q = true -> get_at s q = Some (pixel s q).
Proof. intros Hq. unfold get_at. by rewrite Hq. Qed.

(** [fill] touches no pixel outside the rectangle. *)
Lemma surface_fill_other c r s q :
  in_rect r q = false -> get_at (surface_fill c r s) q = get_at s q.
Proof.
  intros Hq. unfold surface_fill. apply get_at_paint_other.
  intros p Hp ->. apply in_rect_points in Hp. congruence.
Qed.

(** [blit] touches no pixel outside the destination of the buffer. *)
Lemma surface_blit_other src x0 y0 w0 h0 s q :
  in_rect (x0, y0, surf_w src, surf_h src) q = false ->
  get_at (surface_blit src (x0, y0, w0, h0) s) q = get_at s q.
Proof.
  intros Hq. unfold surface_blit. apply get_at_paint_other.
  intros p Hp Heq. apply elem_of_rect_points in Hp.
  assert (in_rect (x0, y0, surf_w src, surf_h src) q = true); [| congruence].
  apply in_rect_spec. subst q. simpl. lia.
Qed.

(** The screen after a [draw] that paints, pixel by pixel. *)
Lemma draw_pixels self (screen : Surface) offset bg q :
  Gadget.need_redraw self = true ->
  in_surface screen q = true ->
  get_at (Gadget.draw self screen offset bg).2 q
  = Some (if in_rect (blit_rect self offset) q
          then pixel (Gadget._wheel_surf self)
                     (q.1 - (blit_rect self offset).1.1.1,
                      q.2 - (blit_rect self offset).1.1.2)
          else if in_rect (moved (Gadget.rect self) offset) q then bg
          else pixel screen q).
Proof.
  intros Hnr Hq. unfold Gadget.draw, Gadget.place, blit_rect, moved.
  destruct (Gadget.rect self) as [[[x y] w] h] eqn:Hrect.
  destruct offset as [xo yo]. cbn -[in_rect]. rewrite Hnr. cbn -[in_rect].
  unfold get_rect_center. cbn -[in_rect].
  set (surf := Gadget._wheel_surf self).
  set (bx := x + xo + w / 2 - surf_w surf / 2).
  set (by_ := y + yo + h / 2 - surf_h surf / 2).
  destruct (in_rect (bx, by_, surf_w surf, surf_h surf) q) eqn:Hb.
  - apply in_rect_spec in Hb.
    pose proof (surface_blit_pixel surf bx by_ (surf_w surf) (surf_h surf)
                  (surface_fill bg (x + xo, y + yo, w, h) screen)
                  (q.1 - bx, q.2 - by_)) as Hblit.
    simpl in Hblit.
    replace (bx + (q.1 - bx), by_ + (q.2 - by_)) with q in Hblit
      by (destruct q; simpl; f_equal; lia).
    apply Hblit.
    + apply in_surface_spec. simpl. lia.
    + unfold surface_fill. by rewrite in_surface_paint.
  - etrans;
      [exact (surface_blit_other surf bx by_ (surf_w surf) (surf_h surf)
                (surface_fill bg (x + xo, y + yo, w, h) screen) q Hb) |].
    destruct (in_rect (x + xo, y + yo, w, h) q) eqn:Hf.
    + apply in_rect_spec in Hf. apply surface_fill_pixel; [exact Hq | lia | lia].
    + rewrite surface_fill_other by exact Hf. by apply get_at_in_surface.
Qed.

End DrawPixels.

(** X6: what a painting [draw] leaves on a pixel screen, for a gadget
    whose screen rectangle does not start at a negative coordinate.
    Where the centred buffer lands, the screen holds the buffer's pixel,
    including the black ones outside the circle; elsewhere inside the
    gadget's screen rectangle it holds the background colour; every other
    pixel of the screen is as before. *)
Theorem X6_draw_screen_pixels self (screen : Surface) offset bg q x y w h :
  Gadget.need_redraw self = true ->
  Gadget.rect self = (x, y, w, h) ->
  0 <= x + offset.1 -> 0 <= y + offset.2 ->
  in_surface screen q = true ->
  get_at (Gadget.draw self screen offset bg).2 q
  = Some (if in_rect (blit_rect self offset) q
          then pixel (Gadget._wheel_surf self)
                     (q.1 - (blit_rect self offset).1.1.1,
                      q.2 - (blit_rect self offset).1.1.2)
          else if in_rect (x + offset.1, y + offset.2, w, h) q then bg
          else pixel screen q).
Proof.
  intros Hnr Hrect _ _ Hq. rewrite draw_pixels by assumption.
  unfold moved. by rewrite Hrect.
Qed.

Lemma X6_draw_screen_pixels_witness :
  get_at (Gadget.draw (Gadget.Gadget__init__ (8, 16, 176, 176) 88
                         (mkSurface 2 2 ∅) true)
                      screen0 offset0 (160, 160, 160)).2 (232, 148)
  = Some (160, 160, 160).
Proof.
  exact (X6_draw_screen_pixels
           (Gadget.Gadget__init__ (8, 16, 176, 176) 88 (mkSurface 2 2 ∅) true)
           screen0 offset0 (160, 160, 160) (232, 148) 8 16 176 176
           eq_refl eq_refl ltac:(simpl; lia) ltac:(simpl; lia) eq_refl).
Defined.

Section ClickAndPixel.

Lemma half_of_double r : 2 * r / 2 = r.
Proof. rewrite Z.mul_comm. apply Z.div_mul. discriminate. Qed.

(** A displacement within the radius is within the radius on each axis. *)
Lemma within_radius_axes dx dy radius :
  0 <= radius ->
  ~ (Py.hypot (IZR dx) (IZR dy) > IZR radius)%R ->
  - radius <= dx <= radius /\ - radius <= dy <= radius.
Proof.
  intros Hr Hle.
  assert (Hsq : ~ radius * radius < dx * dx + dy * dy)
    by (intros Hlt; apply Hle; by apply hypot_gt_iff).
  nia.
Qed.

(** The buffer holds, at a displacement from its centre, the colour that
    the click formula gives for that displacement. *)
Lemma wheel_buffer_pixel radius surf dx dy c :
  0 < radius ->
  _generate_wheel_surface radius = Some surf ->
  - radius <= dx < radius -> - radius <= dy < radius ->
  ~ (Py.hypot (IZR dx) (IZR dy) > IZR radius)%R ->
  hsv_pixel radius dx dy (Py.hypot (IZR dx) (IZR dy)) = Some c ->
  pixel surf (dx + radius, dy + radius) = c.
Proof.
  intros Hr Hgen Hx Hy Hle Hc.
  pose proof (generate_pixel radius surf (dx + radius) (dy + radius) Hr Hgen
                ltac:(lia) ltac:(lia)) as Hpx.
  rewrite (hsv_pixel_render radius dx dy c Hle Hc) in Hpx. simpl in Hpx.
  destruct (generate_dims radius surf Hr Hgen) as [Hw Hh].
  rewrite get_at_in_surface in Hpx by (apply in_surface_spec; simpl; lia).
  congruence.
Qed.

End ClickAndPixel.

(** X7: what is clicked is what is shown.  A gadget whose rectangle is the
    square of its buffer is drawn on a pixel screen; after a
    primary-button press within the radius, left of the right edge and
    above the bottom edge of that square, the gadget's value is exactly
    the colour that [draw] put on the screen at the pointer. *)
Theorem X7_click_colour_is_drawn_pixel `{Toolkit}
        self (screen : Surface) xo yo bg x y mx my :
  0 < Gadget.radius self ->
  _generate_wheel_surface (Gadget.radius self) = Some (Gadget._wheel_surf self) ->
  Gadget.need_redraw self = true ->
  Gadget.rect self = (x, y, 2 * Gadget.radius self, 2 * Gadget.radius self) ->
  in_surface screen (mx, my) = true ->
  pointin (mx, my) (Gadget.screenrect
                      (Gadget.draw self screen (xo, yo) bg).1) = true ->
  (Py.hypot (IZR (mx - (x + xo + Gadget.radius self)))
            (IZR (my - (y + yo + Gadget.radius self)))
   <= IZR (Gadget.radius self))%R ->
  mx < x + xo + 2 * Gadget.radius self ->
  my < y + yo + 2 * Gadget.radius self ->
  exists c self',
    Gadget.process_event (Gadget.draw self screen (xo, yo) bg).1
                         (MOUSEBUTTONDOWN 1) (mx, my)
    = Some ([mkGadgetEvent TYPE_GADGETUP (MOUSEBUTTONDOWN 1) wheel_gadget],
            self')
    /\ Gadget.value self' = Some c
    /\ get_at (Gadget.draw self screen (xo, yo) bg).2 (mx, my) = Some c.
Proof.
  intros Hr Hgen Hnr Hrect Hscr Hin Hle Hmx Hmy.
  set (r := Gadget.radius self) in *.
  destruct (draw_attributes self screen (xo, yo) bg)
    as (_ & Hr' & _ & _ & _ & _ & _ & Hsr).
  rewrite Hrect in Hsr. unfold moved in Hsr. simpl in Hsr.
  set (self1 := (Gadget.draw self screen (xo, yo) bg).1) in *.
  assert (Hle' : ~ (Py.hypot (IZR (mx - (x + xo + r))) (IZR (my - (y + yo + r)))
                    > IZR r)%R) by lra.
  destruct (within_radius_axes _ _ r ltac:(lia) Hle') as [Hdx Hdy].
  destruct (process_event_click self1 mx my (x + xo) (y + yo) (2 * r) (2 * r))
    as (c & Hc & Hp).
  - rewrite Hr'. fold r. lia.
  - exact Hsr.
  - exact Hin.
  - rewrite Hr', half_of_double. by fold r.
  - rewrite Hr', half_of_double in Hc. fold r in Hc.
    exists c, (Gadget.set_value self1 (Some c)).
    split; [exact Hp |]. split; [reflexivity |].
    rewrite draw_pixels by assumption.
    destruct (generate_dims r (Gadget._wheel_surf self) Hr Hgen) as [Hw Hh].
    unfold blit_rect, get_rect_center. rewrite Hrect. cbn -[in_rect Z.mul Z.div].
    rewrite Hw, Hh, !half_of_double.
    replace (in_rect (x + xo + r - r * 2 / 2, y + yo + r - r * 2 / 2,
                      r * 2, r * 2) (mx, my)) with true
      by (symmetry; apply in_rect_spec; rewrite Z.div_mul by discriminate;
          simpl; lia).
    f_equal. rewrite Z.div_mul by discriminate.
    replace (mx - (x + xo + r - r)) with (mx - (x + xo + r) + r) by lia.
    replace (my - (y + yo + r - r)) with (my - (y + yo + r) + r) by lia.
    apply wheel_buffer_pixel; try assumption; lia.
Qed.

Lemma X7_click_colour_is_drawn_pixel_witness :
  exists wheel g1 c self',
    Gadget.__init__ (8, 16, 176, 176) 88 globals0 = Some (wheel, g1)
    /\ Gadget.process_event (H := rect_toolkit)
         (Gadget.draw wheel screen0 (224, 132) (160, 160, 160)).1
         (MOUSEBUTTONDOWN 1) (232, 236)
       = Some ([mkGadgetEvent TYPE_GADGETUP (MOUSEBUTTONDOWN 1) wheel_gadget],
               self')
    /\ Gadget.value self' = Some c
    /\ get_at (Gadget.draw wheel screen0 (224, 132) (160, 160, 160)).2 (232, 236)
       = Some c.
Proof.
  destruct (generate_total 88) as [surf Hgen]; [lia |].
  set (wheel := Gadget.Gadget__init__ (8, 16, 176, 176) 88 surf true).
  assert (Hinit : Gadget.__init__ (8, 16, 176, 176) 88 globals0
                  = Some (wheel, mkGlobals (<[88 := surf]> ∅) 1)).
  { unfold Gadget.__init__.
    by rewrite (get_fresh 88 globals0 surf (lookup_empty _) Hgen). }
  destruct (X7_click_colour_is_drawn_pixel (H := rect_toolkit) wheel screen0
              224 132 (160, 160, 160) 8 16 232 236) as (c & self' & Hp & Hv & Hpx).
  - reflexivity.
  - exact Hgen.
  - reflexivity.
  - reflexivity.
  - reflexivity.
  - destruct (draw_attributes wheel screen0 (224, 132) (160, 160, 160))
      as (_ & _ & _ & _ & _ & _ & _ & ->).
    reflexivity.
  - right. apply hypot_eq_iff; [simpl; lia | reflexivity].
  - simpl. lia.
  - simpl. lia.
  - exists wheel, (mkGlobals (<[88 := surf]> ∅) 1), c, self'. auto.
Defined.

(** X8: the buffer stops one pixel short of the east rim.  For the same
    gadget, placed so that its screen rectangle does not start at a
    negative coordinate, the point at distance [radius] due east of the
    centre lies on the right edge of the square: after a primary-button
    press there, if the toolkit counts it inside the rectangle, the
    gadget's value is pure red, yet [draw] has painted nothing at that
    point of the screen. *)
Theorem X8_east_rim_is_not_drawn `{Toolkit}
        self (screen : Surface) xo yo bg x y :
  0 < Gadget.radius self ->
  _generate_wheel_surface (Gadget.radius self) = Some (Gadget._wheel_surf self) ->
  Gadget.need_redraw self = true ->
  Gadget.rect self = (x, y, 2 * Gadget.radius self, 2 * Gadget.radius self) ->
  0 <= x + xo -> 0 <= y + yo ->
  let east := (x + xo + 2 * Gadget.radius self, y + yo + Gadget.radius self) in
  in_surface screen east = true ->
  pointin east (Gadget.screenrect (Gadget.draw self screen (xo, yo) bg).1)
  = true ->
  (exists self',
     Gadget.process_event (Gadget.draw self screen (xo, yo) bg).1
                          (MOUSEBUTTONDOWN 1) east
     = Some ([mkGadgetEvent TYPE_GADGETUP (MOUSEBUTTONDOWN 1) wheel_gadget],
             self')
     /\ Gadget.value self' = Some (255, 0, 0))
  /\ get_at (Gadget.draw self screen (xo, yo) bg).2 east = get_at screen east.
Proof.
  intros Hr Hgen Hnr Hrect _ _ east Hscr Hin.
  set (r := Gadget.radius self) in *.
  destruct (draw_attributes self screen (xo, yo) bg)
    as (_ & Hr' & _ & _ & _ & _ & _ & Hsr).
  rewrite Hrect in Hsr. unfold moved in Hsr. simpl in Hsr.
  set (self1 := (Gadget.draw self screen (xo, yo) bg).1) in *.
  assert (Hdx : x + xo + 2 * r - (x + xo + 2 * r / 2) = r)
    by (rewrite half_of_double; lia).
  assert (Hdy : y + yo + r - (y + yo + 2 * r / 2) = 0)
    by (rewrite half_of_double; lia).
  split.
  - destruct (process_event_click self1 (x + xo + 2 * r) (y + yo + r)
                (x + xo) (y + yo) (2 * r) (2 * r)) as (c & Hc & Hp).
    + rewrite Hr'. fold r. lia.
    + exact Hsr.
    + exact Hin.
    + rewrite Hr', Hdx, Hdy. fold r. intros Hgt.
      apply hypot_gt_iff in Hgt; lia.
    + rewrite Hr', Hdx, Hdy in Hc. fold r in Hc.
      rewrite hsv_pixel_east in Hc by exact Hr.
      injection Hc as <-.
      exists (Gadget.set_value self1 (Some (255, 0, 0))).
      split; [exact Hp | reflexivity].
  - rewrite draw_pixels by assumption.
    destruct (generate_dims r (Gadget._wheel_surf self) Hr Hgen) as [Hw Hh].
    unfold blit_rect, get_rect_center, moved. rewrite Hrect.
    cbn -[in_rect Z.mul Z.div]. rewrite Hw, Hh, !half_of_double.
    rewrite Z.div_mul by discriminate.
    replace (in_rect (x + xo + r - r, y + yo + r - r, r * 2, r * 2) east)
      with false
      by (symmetry; apply not_true_is_false; rewrite in_rect_spec;
          subst east; simpl; lia).
    replace (in_rect (x + xo, y + yo, 2 * r, 2 * r) east) with false
      by (symmetry; apply not_true_is_false; rewrite in_rect_spec;
          subst east; simpl; lia).
    symmetry. by apply get_at_in_surface.
Qed.

Lemma X8_east_rim_is_not_drawn_witness :
  exists wheel g1,
    Gadget.__init__ (8, 16, 176, 176) 88 globals0 = Some (wheel, g1)
    /\ (exists self',
          Gadget.process_event (H := rect_toolkit)
            (Gadget.draw wheel screen0 (224, 132) (160, 160, 160)).1
            (MOUSEBUTTONDOWN 1) (408, 236)
          = Some ([mkGadgetEvent TYPE_GADGETUP (MOUSEBUTTONDOWN 1) wheel_gadget],
                  self')
          /\ Gadget.value self' = Some (255, 0, 0))
    /\ get_at (Gadget.draw wheel screen0 (224, 132) (160, 160, 160)).2 (408, 236)
       = get_at screen0 (408, 236).
Proof.
  destruct (generate_total 88) as [surf Hgen]; [lia |].
  set (wheel := Gadget.Gadget__init__ (8, 16, 176, 176) 88 surf true).
  exists wheel, (mkGlobals (<[88 := surf]> ∅) 1).
  split.
  { unfold Gadget.__init__.
    by rewrite (get_fresh 88 globals0 surf (lookup_empty _) Hgen). }
  apply (X8_east_rim_is_not_drawn (H := rect_toolkit) wheel screen0
           224 132 (160, 160, 160) 8 16).
  - reflexivity.
  - exact Hgen.
  - reflexivity.
  - reflexivity.
  - lia.
  - lia.
  - reflexivity.
  - destruct (draw_attributes wheel screen0 (224, 132) (160, 160, 160))
      as (_ & _ & _ & _ & _ & _ & _ & ->).
    reflexivity.
Defined.

(** *** _generate_wheel_surface *)

(** X9: the renderer raises exactly for a negative radius (the surface
    cannot be created); for radius 0 it returns the empty surface without
    running the loops, so the division by the radius is never reached. *)
Theorem X9_renderer_accepts_nonnegative_radius radius :
  (_generate_wheel_surface radius = None <-> radius < 0)
  /\ _generate_wheel_surface 0 = Some (mkSurface 0 0 ∅).
Proof.
  split; [| reflexivity]. split.
  - intros Hnone. destruct (Z_lt_le_dec radius 0) as [Hneg | Hpos]; [exact Hneg |].
    destruct (generate_total radius Hpos) as [surf Hs]. congruence.
  - apply generate_negative.
Qed.

(** X10: which pixels are the black mark is decided in integers: a pixel
    of the rendered buffer is black exactly when the square of its
    distance from the centre exceeds the square of the radius. *)
Theorem X10_mask_is_integer_disc radius surf x y :
  0 < radius ->
  _generate_wheel_surface radius = Some surf ->
  0 <= x < 2 * radius -> 0 <= y < 2 * radius ->
  (get_at surf (x, y) = Some BLACK
   <-> radius * radius
       < (x - radius) * (x - radius) + (y - radius) * (y - radius)).
Proof.
  intros Hr Hgen Hx Hy.
  rewrite (generate_pixel radius surf x y Hr Hgen) by lia.
  rewrite <- (hypot_gt_iff (x - radius) (y - radius) radius) by lia.
  pose proof (spec_render_pixel_ok radius x y) as Hok.
  unfold spec_render_pixel, Py.hypot in *.
  destruct (Rgt_dec _ _) as [Hgt | Hle]; simpl.
  - tauto.
  - split; [| contradiction].
    intros [= Hblack]. exfalso.
    by destruct (Hok _ Hr eq_refl) as [_ Hne].
Qed.

Lemma X10_mask_is_integer_disc_witness :
  exists surf,
    _generate_wheel_surface 88 = Some surf
    /\ (get_at surf (0, 0) = Some BLACK
        <-> 88 * 88 < (0 - 88) * (0 - 88) + (0 - 88) * (0 - 88)).
Proof.
  destruct (generate_total 88) as [surf Hgen]; [lia |].
  exists surf. split; [exact Hgen |].
  apply (X10_mask_is_integer_disc 88 surf 0 0); [lia | exact Hgen | lia | lia].
Defined.

Section RimColours.

Local Open Scope R_scope.

(** At saturation 1 one channel of [hsv_to_rgb] is 0. *)
Lemma hsv_to_rgb_saturated h :
  let '(r, g, b) := colorsys.hsv_to_rgb h 1 1 in r = 0 \/ g = 0 \/ b = 0.
Proof.
  unfold colorsys.hsv_to_rgb. destruct (Req_dec_T 1 0); [lra |].
  assert (Hp : 1 * (1 - 1) = 0) by lra.
  repeat match goal with
         | |- context [if ?b then _ else _] => destruct b
         end; rewrite ?Hp; auto.
Qed.

Lemma to_rgb255_zero_channel r g b :
  r = 0 \/ g = 0 \/ b = 0 -> saturated (to_rgb255 (r, g, b)).
Proof.
  assert (H0 : Py.int (0 * 255) = 0%Z)
    by (rewrite Rmult_0_l; apply (int_IZR 0)).
  unfold to_rgb255, saturated.
  intros [-> | [-> | ->]]; rewrite H0; auto.
Qed.

(** On the rim the colour formula gives a fully saturated colour. *)
Lemma hsv_pixel_rim radius dx dy c :
  (0 < radius)%Z ->
  Py.hypot (IZR dx) (IZR dy) = IZR radius ->
  hsv_pixel radius dx dy (Py.hypot (IZR dx) (IZR dy)) = Some c ->
  saturated c.
Proof.
  intros Hr Heq. assert (0 < IZR radius) by (apply IZR_lt; lia).
  unfold hsv_pixel, Py.div. rewrite Heq.
  destruct (Req_dec_T (IZR radius) 0); [lra |].
  replace (IZR radius / IZR radius) with 1 by (field; lra).
  rewrite Rmin_left by lra. intros [= <-].
  pose proof (hsv_to_rgb_saturated (hue_of dx dy)) as Hs.
  destruct (colorsys.hsv_to_rgb (hue_of dx dy) 1 1) as [[r g] b].
  by apply to_rgb255_zero_channel.
Qed.

End RimColours.

(** X11: for every positive radius the centre pixel of the buffer is
    white, the pixel on the west rim is cyan, and every pixel at distance
    exactly [radius] from the centre is at full brightness and full
    saturation (one channel 255, one channel 0). *)
Theorem X11_centre_and_rim_pixels radius surf :
  0 < radius ->
  _generate_wheel_surface radius = Some surf ->
  get_at surf (radius, radius) = Some (255, 255, 255)
  /\ get_at surf (0, radius) = Some (0, 255, 255)
  /\ forall x y c,
       0 <= x < 2 * radius -> 0 <= y < 2 * radius ->
       (x - radius) * (x - radius) + (y - radius) * (y - radius)
       = radius * radius ->
       get_at surf (x, y) = Some c ->
       bright c /\ saturated c.
Proof.
  intros Hr Hgen.
  assert (Hpix : forall dx dy c,
             - radius <= dx < radius -> - radius <= dy < radius ->
             ~ (Py.hypot (IZR dx) (IZR dy) > IZR radius)%R ->
             hsv_pixel radius dx dy (Py.hypot (IZR dx) (IZR dy)) = Some c ->
             get_at surf (dx + radius, dy + radius) = Some c).
  { intros dx dy c Hdx Hdy Hle Hc.
    destruct (generate_dims radius surf Hr Hgen) as [Hw Hh].
    rewrite get_at_in_surface by (apply in_surface_spec; simpl; lia).
    f_equal. by apply wheel_buffer_pixel. }
  split; [| split].
  - apply (Hpix 0 0); [lia | lia | | apply hsv_pixel_centre; lia].
    intros Hgt. apply hypot_gt_iff in Hgt; lia.
  - replace (0, radius) with (- radius + radius, 0 + radius) by (f_equal; lia).
    apply Hpix; [lia | lia | | by apply hsv_pixel_west].
    intros Hgt. apply hypot_gt_iff in Hgt; lia.
  - intros x y c Hx Hy Hrim Hget.
    assert (Heq : Py.hypot (IZR (x - radius)) (IZR (y - radius)) = IZR radius)
      by (apply hypot_eq_iff; lia).
    destruct (hsv_pixel_defined radius (x - radius) (y - radius)
                (Py.hypot (IZR (x - radius)) (IZR (y - radius))))
      as [c' Hc']; [lia |].
    assert (Hle : ~ (Py.hypot (IZR (x - radius)) (IZR (y - radius))
                     > IZR radius)%R) by lra.
    pose proof (Hpix (x - radius) (y - radius) c' ltac:(lia) ltac:(lia) Hle Hc')
      as Hget'.
    replace (x - radius + radius) with x in Hget' by lia.
    replace (y - radius + radius) with y in Hget' by lia.
    assert (c' = c) as -> by congruence.
    split.
    + eapply hsv_pixel_bright; [apply hypot_nonneg | exact Hr | exact Hc'].
    + by eapply hsv_pixel_rim.
Qed.

Lemma X11_centre_and_rim_pixels_witness :
  exists surf,
    _generate_wheel_surface 88 = Some surf
    /\ get_at surf (88, 88) = Some (255, 255, 255)
    /\ get_at surf (0, 88) = Some (0, 255, 255)
    /\ forall x y c,
         0 <= x < 2 * 88 -> 0 <= y < 2 * 88 ->
         (x - 88) * (x - 88) + (y - 88) * (y - 88) = 88 * 88 ->
         get_at surf (x, y) = Some c ->
         bright c /\ saturated c.
Proof.
  destruct (generate_total 88) as [surf Hgen]; [lia |].
  exists surf. split; [exact Hgen |].
  apply (X11_centre_and_rim_pixels 88 surf); [lia | exact Hgen].
Defined.

(** *** _get_wheel_surface and _WHEEL_CACHE *)

Section CacheInvariants.

Lemma cache_faithful_empty n : cache_faithful (mkGlobals ∅ n).
Proof. intros radius surf. simpl. by rewrite lookup_empty. Qed.

Lemma after_call_faithful g r :
  cache_faithful g -> cache_faithful (after_call g r).
Proof.
  intros Hf. unfold after_call, _get_wheel_surface.
  destruct (_WHEEL_CACHE g !! r) as [s |] eqn:Hc; [exact Hf |].
  destruct (_generate_wheel_surface r) as [s |] eqn:Hgen; simpl;
    [| intros radius surf; apply Hf].
  intros radius surf. simpl. rewrite lookup_insert.
  case_decide as Heq; [| apply Hf].
  subst. by intros [= <-].
Qed.

Lemma after_calls_faithful radii g :
  cache_faithful g -> cache_faithful (after_calls g radii).
Proof.
  revert g. induction radii as [| r radii IH]; intros g Hf; [exact Hf |].
  simpl. apply IH. by apply after_call_faithful.
Qed.

(** With a faithful dictionary the cached function returns what the
    renderer returns. *)
Lemma get_transparent g r :
  cache_faithful g ->
  fst <$> _get_wheel_surface r g = _generate_wheel_surface r.
Proof.
  intros Hf. unfold _get_wheel_surface.
  destruct (_WHEEL_CACHE g !! r) as [s |] eqn:Hc.
  - simpl. symmetry. by apply Hf.
  - by destruct (_generate_wheel_surface r).
Qed.

(** A call adds the key it was asked for when that key is new and not
    negative; it enters the renderer when the key is new, which for a
    negative radius is every time. *)
Lemma after_call_dom g r :
  keys_nonnegative g ->
  keys_nonnegative (after_call g r)
  /\ dom (_WHEEL_CACHE (after_call g r))
     = dom (_WHEEL_CACHE g) ∪ (if bool_decide (0 <= r) then {[r]} else ∅)
  /\ (generate_calls (after_call g r) + size (_WHEEL_CACHE g)
      = generate_calls g + size (_WHEEL_CACHE (after_call g r))
        + (if bool_decide (r < 0)%Z then 1 else 0))%nat.
Proof.
  intros Hk. unfold after_call, _get_wheel_surface.
  destruct (_WHEEL_CACHE g !! r) as [s |] eqn:Hc.
  - assert (Hr : r ∈ dom (_WHEEL_CACHE g)) by (apply elem_of_dom; eauto).
    pose proof (Hk r Hr).
    rewrite bool_decide_eq_true_2, bool_decide_eq_false_2 by lia.
    split; [exact Hk |]. split; [set_solver | lia].
  - destruct (Z_lt_le_dec r 0) as [Hneg | Hpos].
    + rewrite generate_negative by exact Hneg. simpl.
      rewrite bool_decide_eq_false_2, bool_decide_eq_true_2 by lia.
      split; [exact Hk |]. split; [set_solver | lia].
    + destruct (generate_total r Hpos) as [s ->]. simpl.
      rewrite bool_decide_eq_true_2, bool_decide_eq_false_2 by lia.
      rewrite dom_insert_L, map_size_insert_None by exact Hc.
      split; [| split; [set_solver | lia]].
      intros r'. simpl. rewrite dom_insert_L.
      intros [->%elem_of_singleton | Hr']%elem_of_union; [exact Hpos | by apply Hk].
Qed.

Lemma after_calls_dom radii g :
  keys_nonnegative g ->
  dom (_WHEEL_CACHE (after_calls g radii))
  = dom (_WHEEL_CACHE g) ∪ list_to_set (filter (fun r => 0 <= r) radii)
  /\ (generate_calls (after_calls g radii) + size (_WHEEL_CACHE g)
      = generate_calls g + size (_WHEEL_CACHE (after_calls g radii))
        + length (filter (fun r => (r < 0)%Z) radii))%nat.
Proof.
  revert g. induction radii as [| r radii IH]; intros g Hk.
  - simpl. split; [set_solver | lia].
  - simpl. destruct (after_call_dom g r Hk) as (Hk1 & Hd1 & Hn1).
    destruct (IH (after_call g r) Hk1) as [Hd Hn].
    rewrite Hd, Hd1. rewrite !filter_cons.
    destruct (decide (0 <= r)) as [Hpos | Hneg].
    + rewrite bool_decide_eq_true_2 by exact Hpos.
      rewrite bool_decide_eq_false_2 in Hn1 by lia.
      rewrite (decide_False (P := r < 0)) by lia.
      split; [set_solver | lia].
    + rewrite bool_decide_eq_false_2 by exact Hneg.
      rewrite bool_decide_eq_true_2 in Hn1 by lia.
      rewrite (decide_True (P := r < 0)) by lia.
      split; [set_solver | simpl; lia].
Qed.

End CacheInvariants.

(** X12: the cache is transparent.  Starting from an empty dictionary,
    after any sequence of requests every entry is the rendering of its
    key, and a request returns exactly what the renderer returns for that
    radius (or raises when the renderer raises). *)
Theorem X12_cache_is_transparent n radii radius :
  let g := after_calls (mkGlobals ∅ n) radii in
  cache_faithful g
  /\ fst <$> _get_wheel_surface radius g = _generate_wheel_surface radius.
Proof.
  intros g.
  assert (Hf : cache_faithful g)
    by (apply after_calls_faithful, cache_faithful_empty).
  split; [exact Hf | by apply get_transparent].
Qed.

(** X13: starting from an empty dictionary and no rendering, after any
    sequence of requests the keys of the dictionary are exactly the
    requested radii that are not negative, and the renderer has been
    called once per key and once more for every request of a negative
    radius: a repeated radius costs no rendering, while a negative one
    enters the renderer, which raises, every time it is requested. *)
Theorem X13_one_rendering_per_radius radii :
  let g := after_calls (mkGlobals ∅ 0) radii in
  dom (_WHEEL_CACHE g) = list_to_set (filter (fun r => 0 <= r) radii)
  /\ generate_calls g
     = (size (_WHEEL_CACHE g) + length (filter (fun r => (r < 0)%Z) radii))%nat.
Proof.
  intros g.
  destruct (after_calls_dom radii (mkGlobals ∅ 0)) as [Hd Hn].
  { intros r. simpl. rewrite dom_empty_L. set_solver. }
  fold g in Hd, Hn. simpl in Hd, Hn. rewrite map_size_empty in Hn.
  split; [set_solver | lia].
Qed.

(** *** colorwheel_req *)

Section SessionResults.

Context `{Toolkit}.

(** What the requestor reports, with the colour of an accepted click. *)
Lemma requestor_outcomes wheel i :
  Requestor_process_event wheel i = Some (in_controls i, wheel)
  \/ Requestor_process_event wheel i = None
  \/ exists c,
       color_ok c /\ bright c
       /\ Requestor_process_event wheel i
          = Some (mkGadgetEvent TYPE_GADGETUP (in_event i) wheel_gadget
                    :: in_controls i,
                  Gadget.set_value wheel (Some c)).
Proof.
  unfold Requestor_process_event.
  destruct (Gadget.process_event wheel (in_event i) (in_mouse i))
    as [[ge wheel'] |] eqn:Hp; [| by (right; left)].
  destruct (process_event_cases wheel (in_event i) (in_mouse i))
    as [Hq | [Hq | (c & x & y & w & h & _ & _ & _ & Hc & Hle & Hq)]];
    rewrite Hq in Hp; try discriminate.
  - injection Hp as <- <-. by left.
  - injection Hp as <- <-. right; right. exists c.
    assert (Hr : 0 < Gadget.radius wheel).
    { destruct (Z_lt_le_dec 0 (Gadget.radius wheel)) as [Hr | Hr]; [exact Hr |].
      destruct (Z.eq_dec (Gadget.radius wheel) 0) as [H0 | Hne].
      - unfold hsv_pixel, Py.div in Hc. rewrite H0 in Hc.
        destruct (Req_dec_T 0 0); [discriminate | congruence].
      - exfalso. apply Hle.
        apply Rlt_gt, Rlt_le_trans with 0%R;
          [apply IZR_lt; lia | apply hypot_nonneg]. }
    split; [| split; [| reflexivity]].
    + eapply hsv_pixel_ok; [apply hypot_nonneg | exact Hr | exact Hc].
    + eapply hsv_pixel_bright; [apply hypot_nonneg | exact Hr | exact Hc].
Qed.

(** When the [for] loop stops the session, [selected] is the wheel's
    value, or [None], or what it was. *)
Lemma scan_stopped v gevents sel sel' :
  scan_gevents v gevents sel = (sel', false) ->
  sel' = v \/ sel' = None \/ sel' = sel.
Proof.
  induction gevents as [| ge rest IH]; simpl; [discriminate |].
  destruct (bool_decide (ge_type ge = TYPE_GADGETUP)); [| exact IH].
  destruct (bool_decide (ge_gadget ge = wheel_gadget) && bool_decide (is_Some v)).
  { intros [= <-]. by left. }
  destruct (bool_decide (ge_gadget ge = ok_g)).
  { destruct (bool_decide (v <> None)); intros [= <-]; auto. }
  destruct (bool_decide (ge_gadget ge = cancel_g)); [| exact IH].
  intros [= <-]. auto.
Qed.

(** The loop returns the module state it started with, and a colour it
    returns is the seeded one or the colour of an accepted click. *)
Lemma event_loop_result env init prr inputs st sel host g :
  session_inv init prr st ->
  event_loop env inputs st = Returned sel host g ->
  g = s_globals st
  /\ (sel = None \/ sel = init
      \/ exists c, sel = Some c /\ color_ok c /\ bright c).
Proof.
  revert st. induction inputs as [| i inputs IH]; intros st Hinv; [discriminate |].
  destruct (Requestor_process_event (s_wheel st) i) as [[gevents wheel] |]
    eqn:Hp; [| simpl; rewrite Hp; discriminate].
  rewrite (event_loop_cons _ _ _ _ _ _ Hp). cbv zeta.
  destruct (scan_gevents _ _ _) as [sel' [|]] eqn:Hscan; simpl.
  - intros Hl. apply IH in Hl; [exact Hl |]. by eapply next_state_inv.
  - unfold finish. intros [= <- _ <-]. split; [reflexivity |].
    destruct Hinv as (_ & Hv & _ & Hs).
    apply scan_stopped in Hscan. rewrite Hs in Hscan.
    destruct (requestor_outcomes (s_wheel st) i)
      as [Hq | [Hq | (c & Hok & Hb & Hq)]];
      rewrite Hq in Hp; try discriminate; injection Hp as <- <-.
    + rewrite Hv in Hscan. tauto.
    + simpl in Hscan.
      destruct Hscan as [-> | [-> | ->]];
        [right; right; exists c; auto | by left | by left].
Qed.

Lemma open_session_globals env init offset g host st :
  open_session env init offset g host = Some st ->
  s_globals st = after_call g Req.radius.
Proof.
  unfold open_session, Gadget.__init__, after_call.
  destruct (_get_wheel_surface Req.radius g) as [[surf g'] |]; [| discriminate].
  simpl. destruct (redraw _ _ _ _). by intros [= <-].
Qed.

Lemma after_call_twice g r :
  0 <= r -> after_call (after_call g r) r = after_call g r.
Proof.
  intros Hr. unfold after_call.
  destruct (get_total r g Hr) as [[surf g'] Hget]. rewrite Hget.
  by rewrite (get_cached r g' surf (get_stores _ _ _ _ Hget)).
Qed.

Lemma after_call_renders g r :
  (generate_calls (after_call g r) <= S (generate_calls g))%nat.
Proof.
  unfold after_call, _get_wheel_surface.
  destruct (_WHEEL_CACHE g !! r); [lia |].
  destruct (_generate_wheel_surface r); simpl; lia.
Qed.

End SessionResults.

(** X14: [colorwheel_req] never lets an exception of the wheel's own code
    through, whatever events arrive: the wheel of radius 88 can always be
    rendered and its colour computation never divides by zero. *)
Theorem X14_session_never_raises `{Toolkit} env init offset inputs g host :
  colorwheel_req env init offset inputs g host <> Raised.
Proof.
  unfold colorwheel_req.
  destruct (open_session_ok env init offset g host) as (st & -> & Hinv & _).
  by eapply event_loop_no_raise.
Qed.

(** X15: what [colorwheel_req] can return: [None], or the initial colour
    it was given, or the colour of a click on the wheel, which is an
    8-bit triple with one channel at 255. *)
Theorem X15_session_result `{Toolkit} env init offset inputs g host sel host' g' :
  colorwheel_req env init offset inputs g host = Returned sel host' g' ->
  sel = None \/ sel = init
  \/ exists c, sel = Some c /\ color_ok c /\ bright c.
Proof.
  unfold colorwheel_req.
  destruct (open_session_ok env init offset g host) as (st & -> & Hinv & _).
  intros Hl. by destruct (event_loop_result _ _ _ _ _ _ _ _ Hinv Hl).
Qed.

Lemma X15_session_result_witness :
  exists host' g',
    colorwheel_req (H := rect_toolkit) env0 None offset0 [click_west]
                   globals0 host0
    = Returned (Some (0, 255, 255)) host' g'
    /\ (Some (0, 255, 255) = None \/ Some (0, 255, 255) = @None Color
        \/ exists c, Some (0, 255, 255) = Some c /\ color_ok c /\ bright c).
Proof.
  destruct west_rim_click_returns_cyan as (host' & g' & Hr).
  exists host', g'. split; [exact Hr |].
  exact (X15_session_result (H := rect_toolkit) env0 None offset0 [click_west]
           globals0 host0 _ host' g' Hr).
Defined.

(** X16: a turn in which the requestor reports no [TYPE_GADGETUP] (the
    event is not an accepted wheel click and neither button fires) keeps
    the session waiting, with the wheel's value and [selected] as they
    were. *)
Theorem X16_quiet_turn_keeps_waiting
        `{Toolkit} env init offset pre g host st i gevents wheel :
  colorwheel_req env init offset pre g host = Waiting st ->
  Requestor_process_event (s_wheel st) i = Some (gevents, wheel) ->
  first_gadgetup gevents = None ->
  exists st',
    colorwheel_req env init offset (pre ++ [i]) g host = Waiting st'
    /\ Gadget.value (s_wheel st') = Gadget.value (s_wheel st)
    /\ selected st' = None.
Proof.
  intros Hw Hp Hf.
  destruct (colorwheel_req_resume _ _ _ _ [i] _ _ _ Hw) as [-> Hinv].
  rewrite (event_loop_cons _ _ _ _ _ _ Hp). cbv zeta.
  pose proof (scan_none (Gadget.value wheel) gevents (selected st) Hf) as Hscan.
  rewrite Hscan. simpl.
  pose proof (next_state_inv env i _ _ _ _ _ _ Hinv Hp Hscan) as (_ & Hv & _ & Hs).
  eexists. split; [reflexivity |].
  destruct Hinv as (_ & Hv0 & _). split; [congruence | exact Hs].
Qed.

Lemma X16_quiet_turn_keeps_waiting_witness :
  exists st st',
    colorwheel_req (H := rect_toolkit) env0 None offset0 [] globals0 host0
    = Waiting st
    /\ colorwheel_req (H := rect_toolkit) env0 None offset0
         ([] ++ [mkInput (MOUSEBUTTONUP 1) (320, 236) [] offset0]) globals0 host0
       = Waiting st'
    /\ Gadget.value (s_wheel st') = Gadget.value (s_wheel st)
    /\ selected st' = None.
Proof.
  destruct (colorwheel_req_opened (H := rect_toolkit) env0 None offset0
              globals0 host0) as (st & Hw & _).
  destruct (X16_quiet_turn_keeps_waiting (H := rect_toolkit) env0 None offset0 []
              globals0 host0 st (mkInput (MOUSEBUTTONUP 1) (320, 236) [] offset0)
              [] (s_wheel st) Hw) as (st' & Hw' & Hv & Hs).
  - unfold Requestor_process_event. cbn [in_event in_mouse in_controls].
    by rewrite process_event_up.
  - reflexivity.
  - exists st, st'. auto.
Defined.

(** X17: the session touches the module state only through the one
    request for the wheel of radius 88: when it returns, the state is the
    one after that request, so at most one rendering was done, and a
    session opened afterwards returns with the module state unchanged
    (nothing is rendered again). *)
Theorem X17_reopening_renders_nothing
        `{Toolkit} env init offset inputs g host sel host' g'
        env2 init2 offset2 inputs2 host2 sel2 host2' g2 :
  colorwheel_req env init offset inputs g host = Returned sel host' g' ->
  colorwheel_req env2 init2 offset2 inputs2 g' host2
  = Returned sel2 host2' g2 ->
  g' = after_call g Req.radius
  /\ (generate_calls g' <= S (generate_calls g))%nat
  /\ g2 = g'.
Proof.
  unfold colorwheel_req.
  destruct (open_session_ok env init offset g host) as (st & Ho & Hinv & _).
  destruct (open_session_ok env2 init2 offset2 g' host2)
    as (st2 & Ho2 & Hinv2 & _).
  rewrite Ho, Ho2. intros Hl Hl2.
  destruct (event_loop_result _ _ _ _ _ _ _ _ Hinv Hl) as [-> _].
  destruct (event_loop_result _ _ _ _ _ _ _ _ Hinv2 Hl2) as [-> _].
  rewrite (open_session_globals _ _ _ _ _ _ Ho).
  rewrite (open_session_globals _ _ _ _ _ _ Ho2).
  rewrite (open_session_globals _ _ _ _ _ _ Ho).
  split; [reflexivity |]. split; [apply after_call_renders |].
  apply after_call_twice. unfold Req.radius. lia.
Qed.

Lemma X17_reopening_renders_nothing_witness :
  exists host' g' host2' g2,
    colorwheel_req (H := rect_toolkit) env0 None offset0
                   ([] ++ press_cancel :: []) globals0 host0
    = Returned None host' g'
    /\ colorwheel_req (H := rect_toolkit) env0 None offset0
                      ([] ++ press_cancel :: []) g' host0
       = Returned None host2' g2
    /\ g' = after_call globals0 Req.radius
    /\ (generate_calls g' <= S (generate_calls globals0))%nat
    /\ g2 = g'.
Proof.
  destruct (colorwheel_req_opened (H := rect_toolkit) env0 None offset0
              globals0 host0) as (st & Hw & _).
  destruct (cancel_returns (H := rect_toolkit) env0 None offset0 [] globals0 host0
              st press_cancel [] Hw
              (release_activates (H := rect_toolkit) st 1 (368, 332) offset0
                                 cancel_g))
    as (host' & g' & Hr).
  destruct (colorwheel_req_opened (H := rect_toolkit) env0 None offset0
              g' host0) as (st2 & Hw2 & _).
  destruct (cancel_returns (H := rect_toolkit) env0 None offset0 [] g' host0
              st2 press_cancel [] Hw2
              (release_activates (H := rect_toolkit) st2 1 (368, 332) offset0
                                 cancel_g))
    as (host2' & g2 & Hr2).
  exists host', g', host2', g2. split; [exact Hr |]. split; [exact Hr2 |].
  exact (X17_reopening_renders_nothing (H := rect_toolkit) _ _ _ _ _ _ _ _ _
           _ _ _ _ _ _ _ _ Hr Hr2).
Defined.

Section HostTrace.

Context `{Toolkit}.

Lemma display_updates_app t1 t2 :
  display_updates (t1 ++ t2) = (display_updates t1 + display_updates t2)%nat.
Proof.
  induction t1 as [| c t1 IH]; [reflexivity |].
  destruct c; simpl; by rewrite ?IH.
Qed.

(** One redraw: a recompose that finds the region of the host, the
    drawing of the requestor, and one display update. *)
Lemma redraw_calls env offset wheel host :
  exists t,
    calls (redraw env offset wheel host).2 = calls host ++ t
    /\ recomposes_see (pixel_req_rect host) t
    /\ display_updates t = 1%nat
    /\ Recompose (pixel_req_rect host) ∈ t.
Proof.
  unfold redraw, Requestor_draw, Gadget.draw, Gadget.place.
  destruct (Gadget.rect wheel) as [[[x y] w] h], offset as [xo yo].
  simpl. destruct (Gadget.need_redraw wheel); simpl;
    rewrite <- !app_assoc; simpl; eexists; (split; [reflexivity |]);
    (split; [| split; [reflexivity | by left]]);
    intros r' Hr'; repeat (apply elem_of_cons in Hr' as [Hr' | Hr']);
    try discriminate; try (by apply elem_of_nil in Hr'); congruence.
Qed.

Lemma recomposes_see_app r t1 t2 :
  recomposes_see r t1 -> recomposes_see r t2 -> recomposes_see r (t1 ++ t2).
Proof.
  intros H1 H2 r' Hr'. apply elem_of_app in Hr' as [Hr' | Hr']; auto.
Qed.

(** The calls the loop adds: while it runs every recompose finds the
    region the host has at that time and every turn updates the display
    once; the return adds the last recompose, with the backup. *)
Lemma event_loop_calls env inputs st :
  match event_loop env inputs st with
  | Waiting st' =>
      exists t,
        calls (s_host st') = calls (s_host st) ++ t
        /\ recomposes_see (pixel_req_rect (s_host st)) t
        /\ display_updates t = length inputs
  | Returned _ host' _ =>
      exists t,
        calls host' = calls (s_host st) ++ t ++ [Recompose (prr_backup st)]
        /\ recomposes_see (pixel_req_rect (s_host st)) t
        /\ (1 <= display_updates t <= length inputs)%nat
  | Raised => True
  end.
Proof.
  revert st. induction inputs as [| i inputs IH]; intros st.
  - simpl. exists []. rewrite app_nil_r. repeat split.
    intros r' Hr'. by apply elem_of_nil in Hr'.
  - destruct (Requestor_process_event (s_wheel st) i) as [[gevents wheel] |]
      eqn:Hp; [| simpl; by rewrite Hp].
    rewrite (event_loop_cons _ _ _ _ _ _ Hp). cbv zeta.
    destruct (redraw_calls env (in_offset i) wheel (s_host st))
      as (t1 & Ht1 & Hsee1 & Hdu1 & _).
    destruct (redraw_frame env (in_offset i) wheel (s_host st)) as (_ & _ & Hprr).
    destruct (scan_gevents _ _ _) as [sel [|]]; simpl.
    + specialize (IH (next_state env i wheel sel st)).
      unfold next_state in IH at 2 3 4. simpl in IH.
      rewrite Ht1, Hprr in IH.
      destruct (event_loop env inputs (next_state env i wheel sel st))
        as [sel' host' g' | st' |]; [| | exact I].
      * destruct IH as (t & Ht & Hsee & Hdu). exists (t1 ++ t).
        rewrite Ht, <- !app_assoc. split; [reflexivity |].
        split; [by apply recomposes_see_app |].
        rewrite display_updates_app. lia.
      * destruct IH as (t & Ht & Hsee & Hdu). exists (t1 ++ t).
        rewrite Ht, <- !app_assoc. split; [reflexivity |].
        split; [by apply recomposes_see_app |].
        rewrite display_updates_app. lia.
    + exists t1. unfold next_state. simpl. rewrite Ht1, <- app_assoc.
      split; [reflexivity |]. split; [exact Hsee1 | lia].
Qed.

Lemma open_session_calls env init offset g host st :
  open_session env init offset g host = Some st ->
  exists t,
    calls (s_host st) = calls host ++ t
    /\ recomposes_see (Some (get_screen_rect (req_rect env))) t
    /\ display_updates t = 1%nat
    /\ Recompose (Some (get_screen_rect (req_rect env))) ∈ t.
Proof.
  unfold open_session.
  destruct (Gadget.__init__ _ _ _) as [[wheel g'] |]; [| discriminate].
  simpl.
  set (wheel1 := match init with Some _ => _ | None => _ end).
  set (host1 := mkHost (Some (get_screen_rect (req_rect env))) (calls host)).
  destruct (redraw_calls env offset wheel1 host1) as (t & Ht & Hsee & Hdu & Hin).
  destruct (redraw env offset wheel1 host1) as [wheel2 host2].
  intros [= <-]. simpl in *. eauto.
Qed.

End HostTrace.

(** X18: while the requestor is open the host repaints around it: in the
    calls a returning session adds, every [config.recompose()] but the
    last finds the requestor's rectangle as the reserved region, and the
    last one, made after the restore, finds the region of before. *)
Theorem X18_recompose_sees_override
        `{Toolkit} env init offset inputs g host sel host' g' :
  colorwheel_req env init offset inputs g host = Returned sel host' g' ->
  exists t,
    calls host' = calls host ++ t ++ [Recompose (pixel_req_rect host)]
    /\ recomposes_see (Some (get_screen_rect (req_rect env))) t
    /\ Recompose (Some (get_screen_rect (req_rect env))) ∈ t.
Proof.
  unfold colorwheel_req.
  destruct (open_session_ok env init offset g host)
    as (st & Ho & (_ & _ & Hb & _) & Hprr).
  rewrite Ho. intros Hl.
  destruct (open_session_calls _ _ _ _ _ _ Ho)
    as (t0 & Ht0 & Hsee0 & Hdu0 & Hin0).
  pose proof (event_loop_calls env inputs st) as Hc. rewrite Hl in Hc.
  destruct Hc as (t & Ht & Hsee & Hdu).
  exists (t0 ++ t). rewrite Ht, Ht0, Hb, <- !app_assoc.
  split; [reflexivity |]. rewrite Hprr in Hsee.
  split; [by apply recomposes_see_app |].
  apply elem_of_app. by left.
Qed.

Lemma X18_recompose_sees_override_witness :
  exists host' g' t,
    colorwheel_req (H := rect_toolkit) env0 None offset0
                   ([] ++ press_cancel :: []) globals0 host0
    = Returned None host' g'
    /\ calls host' = calls host0 ++ t ++ [Recompose (pixel_req_rect host0)]
    /\ recomposes_see
         (Some (get_screen_rect (Toolkit := rect_toolkit) (req_rect env0))) t
    /\ Recompose (Some (get_screen_rect (Toolkit := rect_toolkit)
                                        (req_rect env0))) ∈ t.
Proof.
  destruct (colorwheel_req_opened (H := rect_toolkit) env0 None offset0
              globals0 host0) as (st & Hw & _).
  destruct (cancel_returns (H := rect_toolkit) env0 None offset0 [] globals0 host0
              st press_cancel [] Hw
              (release_activates (H := rect_toolkit) st 1 (368, 332) offset0
                                 cancel_g))
    as (host' & g' & Hr).
  destruct (X18_recompose_sees_override (H := rect_toolkit) env0 None offset0
              ([] ++ press_cancel :: []) globals0 host0 None host' g' Hr)
    as (t & Ht).
  exists host', g', t. split; [exact Hr | exact Ht].
Defined.

(** X19: the display is updated once when the requestor opens and once
    after every event the loop takes, the one that ends it included: a
    session still waiting after [n] events has updated it [n + 1] times,
    a session that returned at least twice and at most [n + 1] times. *)
Theorem X19_one_display_update_per_turn `{Toolkit} env init offset inputs g host :
  match colorwheel_req env init offset inputs g host with
  | Waiting st =>
      display_updates (calls (s_host st))
      = (display_updates (calls host) + S (length inputs))%nat
  | Returned _ host' _ =>
      (display_updates (calls host) + 2 <= display_updates (calls host')
       <= display_updates (calls host) + S (length inputs))%nat
  | Raised => False
  end.
Proof.
  unfold colorwheel_req.
  destruct (open_session_ok env init offset g host) as (st & Ho & Hinv & _).
  rewrite Ho.
  destruct (open_session_calls _ _ _ _ _ _ Ho) as (t0 & Ht0 & _ & Hdu0 & _).
  pose proof (event_loop_calls env inputs st) as Hc.
  pose proof (event_loop_no_raise env _ _ inputs st Hinv) as Hnr.
  destruct (event_loop env inputs st) as [sel host' g' | st' |]; [| | done].
  - destruct Hc as (t & -> & _ & Hdu).
    rewrite Ht0, !display_updates_app. simpl. lia.
  - destruct Hc as (t & -> & _ & Hdu).
    rewrite Ht0, !display_updates_app. lia.
Qed.

(** X5: the [for] loop over the notifications stops at the first
    [TYPE_GADGETUP] that comes from OK, from Cancel, or from the wheel
    while it has a value: notifications of other types before it are
    skipped, and whatever follows it is not looked at.  A wheel
    notification while the wheel has no value is skipped as well. *)
Theorem X5_first_notification_decides v pre ge post sel :
  first_gadgetup pre = None ->
  ge_type ge = TYPE_GADGETUP ->
  (ge_gadget ge = wheel_gadget -> is_Some v) ->
  scan_gevents v (pre ++ ge :: post) sel = scan_gevents v [ge] sel
  /\ (scan_gevents v [ge] sel).2 = false
  /\ scan_gevents None (mkGadgetEvent TYPE_GADGETUP (ge_event ge) wheel_gadget
                          :: post) sel
     = scan_gevents None post sel.
Proof.
  intros Hpre Hty Hwheel. split; [| split; [| reflexivity]].
  - induction pre as [| e pre IH].
    + simpl. rewrite Hty. simpl.
      destruct (ge_gadget ge); simpl; try reflexivity.
      destruct (Hwheel eq_refl) as [c ->]. reflexivity.
    + simpl in *. destruct (bool_decide (ge_type e = TYPE_GADGETUP));
        [discriminate | by apply IH].
  - simpl. rewrite Hty. simpl.
    destruct (ge_gadget ge); simpl; try reflexivity.
    destruct (Hwheel eq_refl) as [c ->]. reflexivity.
Qed.

Lemma X5_first_notification_decides_witness :
  scan_gevents (Some (255, 0, 0))
    ([mkGadgetEvent TYPE_MOUSEMOVE OTHER_EVENT ok_g]
       ++ mkGadgetEvent TYPE_GADGETUP (MOUSEBUTTONUP 1) cancel_g
       :: [mkGadgetEvent TYPE_GADGETUP (MOUSEBUTTONUP 1) ok_g]) None
  = scan_gevents (Some (255, 0, 0))
      [mkGadgetEvent TYPE_GADGETUP (MOUSEBUTTONUP 1) cancel_g] None
  /\ (scan_gevents (Some (255, 0, 0))
        [mkGadgetEvent TYPE_GADGETUP (MOUSEBUTTONUP 1) cancel_g] None).2 = false
  /\ scan_gevents None
       (mkGadgetEvent TYPE_GADGETUP (MOUSEBUTTONUP 1) wheel_gadget
          :: [mkGadgetEvent TYPE_GADGETUP (MOUSEBUTTONUP 1) ok_g]) None
     = scan_gevents None [mkGadgetEvent TYPE_GADGETUP (MOUSEBUTTONUP 1) ok_g] None.
Proof.
  apply (X5_first_notification_decides (Some (255, 0, 0))
           [mkGadgetEvent TYPE_MOUSEMOVE OTHER_EVENT ok_g]
           (mkGadgetEvent TYPE_GADGETUP (MOUSEBUTTONUP 1) cancel_g)
           [mkGadgetEvent TYPE_GADGETUP (MOUSEBUTTONUP 1) ok_g] None).
  - reflexivity.
  - reflexivity.
  - discriminate.
Defined.

(** X20: the layout of the requestor.  It is centred on the screen to
    within one pixel; the rectangles of the wheel, of OK and of Cancel
    lie within its width; and no point belongs to two of them, even
    counting their edges, so a pointer position selects at most one
    gadget. *)
Theorem X20_requestor_layout env p :
  (let '(x, y, w, h) := req_rect env in
   0 <= screen_width env - (2 * x + w) <= 1
   /\ 0 <= screen_height env - (2 * y + h) <= 1)
  /\ Forall (fun r : Rect => let '(x, _, w, _) := r in 0 <= x /\ x + w <= req_w)
            [wheel_rect env; ok_rect env; cancel_rect env]
  /\ rect_pointin p (wheel_rect env) && rect_pointin p (ok_rect env) = false
  /\ rect_pointin p (wheel_rect env) && rect_pointin p (cancel_rect env) = false
  /\ rect_pointin p (ok_rect env) && rect_pointin p (cancel_rect env) = false.
Proof.
  assert (Hw : req_w = 192) by reflexivity.
  assert (Hh : req_h = 216) by reflexivity.
  assert (Hs : wheel_size = 176) by reflexivity.
  unfold req_rect, wheel_rect, ok_rect, cancel_rect, rect_pointin.
  rewrite Hw, Hh, Hs. cbn -[Z.add Z.sub Z.mul Z.div Z.leb].
  change (192 / 4 - 30) with 18. change (3 * 192 / 4 - 30) with 114.
  split; [| split; [| split; [| split]]].
  - pose proof (Z.div_mod (screen_width env - 192) 2 ltac:(lia)).
    pose proof (Z.mod_pos_bound (screen_width env - 192) 2 ltac:(lia)).
    pose proof (Z.div_mod (screen_height env - 216) 2 ltac:(lia)).
    pose proof (Z.mod_pos_bound (screen_height env - 216) 2 ltac:(lia)).
    lia.
  - repeat constructor; lia.
  - apply not_true_iff_false. rewrite !andb_true_iff, !Z.leb_le. lia.
  - apply not_true_iff_false. rewrite !andb_true_iff, !Z.leb_le. lia.
  - apply not_true_iff_false. rewrite !andb_true_iff, !Z.leb_le. lia.
Qed.
